(** * LiteFS mount command: a shallow embedding of [cmd/litefs/mount_linux.go]

    The mount command is orchestration code: it reads its configuration,
    calls into collaborators (the store, the lease backends, the HTTP and
    proxy servers, the FUSE file system, subprocesses) and waits on channels.
    The embedding keeps that shape.  Every method of [MountCommand] is a
    computation in a small monad that threads the command's fields and the
    process-wide [expvarOnce], may end with an error, a panic or a wait that
    never ends, and records the calls it makes on collaborators as a trace
    of events.  What the collaborators answer is read from an environment.

    [ParseFlags] and [Close] are not part of the embedding: none of the
    properties below speaks of them. *)

From Stdlib Require Import String Ascii List ZArith Lia Bool DecimalString.
Import ListNotations.

Open Scope Z_scope.
Open Scope string_scope.

(** ** Go values *)

(** [error] values.  [errorString] is an error known by its text
    ([errors.New], or [fmt.Errorf] without [%w]); [wrapError msg err] is
    [fmt.Errorf(msg + ": %w", err)]. *)
Inductive error : Type :=
| errorString (text : string)
| wrapError (msg : string) (err : error).

(** The [Error()] method. *)
Fixpoint Error (e : error) : string :=
  match e with
  | errorString text => text
  | wrapError msg err => msg ++ ": " ++ Error err
  end.

(** [time.Duration] is a count of nanoseconds. *)
Definition Duration := Z.
Definition Nanosecond : Duration := 1.
Definition Microsecond : Duration := 1000 * Nanosecond.
Definition Millisecond : Duration := 1000 * Microsecond.
Definition Second : Duration := 1000 * Millisecond.

(** The verb [%d] on an [int]. *)
Definition itoa (z : Z) : string := NilZero.string_of_int (Z.to_int z).

(** The verb [%v] on a [[]string]. *)
Definition fmt_slice (l : list string) : string := "[" ++ String.concat " " l ++ "]".

(** The verb [%v] on a [bool]. *)
Definition fmt_bool (b : bool) : string := if b then "true" else "false".

(** ** Configuration

    The [Config] struct is declared outside this file; the records below
    carry the fields the mount command reads. *)

Record FUSEConfig := {
  FUSE_Dir : string;
  FUSE_AllowOther : bool;
  FUSE_Debug : bool
}.

Record DataConfig := {
  Data_Dir : string;
  Data_Compress : bool;
  Data_Retention : Duration;
  Data_RetentionMonitorInterval : Duration
}.

Record ConsulConfig := {
  Consul_URL : string;
  Consul_Key : string;
  Consul_TTL : Duration;
  Consul_LockDelay : Duration
}.

Record LeaseConfig := {
  Lease_Type : string;
  Lease_Hostname : string;
  Lease_AdvertiseURL : string;
  Lease_Candidate : bool;
  Lease_Promote : bool;
  Lease_ReconnectDelay : Duration;
  Lease_DemoteDelay : Duration;
  Lease_Consul : ConsulConfig
}.

Record HTTPConfig := {
  HTTP_Addr : string
}.

Record ProxyConfig := {
  Proxy_Addr : string;
  Proxy_Target : string;
  Proxy_DB : string;
  Proxy_Debug : bool;
  Proxy_Passthrough : list string
}.

Record ExecConfig := {
  Cmd : string;
  IfCandidate : bool
}.

Record Config := {
  FUSE : FUSEConfig;
  Data : DataConfig;
  Lease : LeaseConfig;
  HTTP : HTTPConfig;
  Proxy : ProxyConfig;
  Exec : list ExecConfig;
  SkipSync : bool;
  StrictVerify : bool
}.

(** ** Collaborators *)

(** The distributed-lock leaser of package [consul]. *)
Record consul_Leaser := {
  leaser_URL : string;
  leaser_Key : string;
  leaser_Hostname : string;
  leaser_AdvertiseURL : string;
  TTL : Duration;
  LockDelay : Duration
}.

(** The [litefs.Leaser] interface has two implementations. *)
Inductive Leaser : Type :=
| StaticLeaser (isPrimary : bool) (hostname advertiseURL : string)
| ConsulLeaser (l : consul_Leaser).

Record FileSystem := {
  fs_Path : string;
  AllowOther : bool;
  fs_Debug : bool
}.

(** The client of package [http] the store uses to reach other nodes. *)
Inductive Client : Type := NewClient.

Record Store := {
  store_Path : string;
  store_candidate : bool;
  store_StrictVerify : bool;
  Compress : bool;
  Retention : Duration;
  RetentionMonitorInterval : Duration;
  ReconnectDelay : Duration;
  DemoteDelay : Duration;
  store_Client : option Client;
  store_Leaser : option Leaser;
  Invalidator : option FileSystem
}.

Record HTTPServer := {
  server_Addr : string
}.

Record ProxyServer := {
  Target : string;
  DBName : string;
  proxy_Addr : string;
  proxy_Debug : bool;
  Passthroughs : list string
}.

(** [MountCommand]: a nil pointer field is [None]. *)
Record MountCommand := {
  c_cmd : option (string * list string);
  c_Config : Config;
  c_Store : option Store;
  c_Leaser : option Leaser;
  c_FileSystem : option FileSystem;
  c_HTTPServer : option HTTPServer;
  c_ProxyServer : option ProxyServer;
  c_AdvertiseURLFn : option string
}.

(** ** Validation *)

Definition LeaseTypeConsul : string := "consul".
Definition LeaseTypeStatic : string := "static".

Definition IsValidLeaseType (s : string) : bool :=
  if (s =? LeaseTypeConsul) || (s =? LeaseTypeStatic) then true else false.

(** [Validate] has no effect; [None] is the nil error. *)
Definition Validate (c : MountCommand) : option error :=
  if FUSE_Dir (FUSE (c_Config c)) =? "" then
    Some (errorString "fuse directory required")
  else if Data_Dir (Data (c_Config c)) =? "" then
    Some (errorString "data directory required")
  else if FUSE_Dir (FUSE (c_Config c)) =? Data_Dir (Data (c_Config c)) then
    Some (errorString "fuse directory and data directory cannot be the same path")
  else if negb (IsValidLeaseType (Lease_Type (Lease (c_Config c)))) then
    Some (errorString ("invalid lease type, must be either 'consul' or 'static', got: '"
                       ++ Lease_Type (Lease (c_Config c)) ++ "'"))
  else None.

(** ** Events and environment *)

(** What the command does to the outside world, in the order it does it. *)
Inductive event : Type :=
| EvPrintln (line : string)
| EvLog (format : string) (args : list string)
| EvHostname
| EvHTTPListen (server : HTTPServer)
| EvProxyListen (server : ProxyServer)
| EvConsulOpen (l : consul_Leaser)
| EvStoreOpen (st : Store)
| EvExpvarPublish (name : string)
| EvMount (fsys : FileSystem)
| EvHTTPServe
| EvRecvCtxDone
| EvRecvReady
| EvProxyServe
| EvPrimaryInfo
| EvHandoff (primaryURL : string) (id : Z)
| EvNewTicker (d : Duration)
| EvTickerStop (d : Duration)
| EvRecvTimeout
| EvRecvTick
| EvIsPrimary (answer : bool)
| EvCmdRun (name : string) (args : list string)
| EvCmdStart (name : string) (args : list string)
| EvGoWait.

(** The case a [select] over [ctx.Done()] and [Store.ReadyCh()] takes. *)
Inductive ready_case : Type := CtxDone | StoreReady.

(** What can happen while [promote] waits, in the order it happens: the
    context is canceled, the millisecond ticker delivers a tick (with what
    [Store.IsPrimary()] answers when asked at that tick), or the timeout
    ticker delivers. *)
Inductive happening : Type :=
| CtxCanceled
| TickerFired (storeIsPrimary : bool)
| TimeoutFired.

(** The answers of the collaborators.  A Go [(T, error)] result is a sum, an
    [error] result is an [option] with [None] for nil. *)
Record Env := {
  VersionString : string;
  strconv_Quote : string -> string;
  os_Hostname : string + error;
  http_Listen : option error;
  http_Port : Z;
  http_URL : string;
  http_CompileMatch : string -> option error;
  proxy_Listen : option error;
  proxy_URL : string;
  consul_DefaultTTL : Duration;
  consul_DefaultLockDelay : Duration;
  leaser_Open : option error;
  store_Open : option error;
  fsys_Mount : option error;
  ready_wait : option ready_case;
  ctx_Cause : error;
  store_PrimaryInfo : bool * string;
  store_ID : Z;
  client_Handoff : string -> Z -> option error;
  promote_timeline : list happening;
  shellwords_Parse : string -> list string + error;
  cmd_Run : string -> list string -> option error;
  cmd_Start : string -> list string -> option error
}.

(** ** The monad of methods *)

Inductive outcome (A : Type) : Type :=
| Returned (a : A)
| Failed (err : error)
| Panicked (msg : string)
| Blocked.

Arguments Returned {A} a.
Arguments Failed {A} err.
Arguments Panicked {A} msg.
Arguments Blocked {A}.

(** The receiver [c] and the package variable [expvarOnce] ([true] once its
    [Do] has run). *)
Record state := {
  self : MountCommand;
  expvarOnce : bool
}.

Record ran (A : Type) := mkRan {
  result : outcome A;
  final : state;
  trace : list event
}.

Arguments mkRan {A} result final trace.
Arguments result {A} r.
Arguments final {A} r.
Arguments trace {A} r.

Definition M (A : Type) : Type := state -> ran A.

Definition ret {A} (a : A) : M A := fun s => mkRan (Returned a) s [].

Definition bind {A B} (m : M A) (k : A -> M B) : M B :=
  fun s =>
    match m s with
    | mkRan (Returned a) s1 t1 =>
        match k a s1 with
        | mkRan o s2 t2 => mkRan o s2 (t1 ++ t2)%list
        end
    | mkRan (Failed err) s1 t1 => mkRan (Failed err) s1 t1
    | mkRan (Panicked msg) s1 t1 => mkRan (Panicked msg) s1 t1
    | mkRan Blocked s1 t1 => mkRan Blocked s1 t1
    end.

Declare Scope go_scope.
Delimit Scope go_scope with go.
Notation "x <- m ;; k" := (bind m (fun x => k))
  (at level 61, m at next level, right associativity) : go_scope.
Notation "m ;; k" := (bind m (fun _ => k))
  (at level 61, right associativity) : go_scope.
Open Scope go_scope.

Definition emit (e : event) : M unit := fun s => mkRan (Returned tt) s [e].
Definition fail {A} (err : error) : M A := fun s => mkRan (Failed err) s [].
Definition panic {A} (msg : string) : M A := fun s => mkRan (Panicked msg) s [].
Definition blocked {A} : M A := fun s => mkRan Blocked s [].

Definition get_self : M MountCommand := fun s => mkRan (Returned (self s)) s [].
Definition modify (f : MountCommand -> MountCommand) : M unit :=
  fun s => mkRan (Returned tt) {| self := f (self s); expvarOnce := expvarOnce s |} [].

(** [log.Printf]. *)
Definition log (format : string) (args : list string) : M unit := emit (EvLog format args).

(** An [error] result: nil goes on, non-nil is returned as it is. *)
Definition check (r : option error) : M unit :=
  match r with
  | None => ret tt
  | Some err => fail err
  end.

(** [if err := m; err != nil { return fmt.Errorf(msg + ": %w", err) }]. *)
Definition wrapping {A} (msg : string) (m : M A) : M A :=
  fun s =>
    match m s with
    | mkRan (Failed err) s1 t1 => mkRan (Failed (wrapError msg err)) s1 t1
    | r => r
    end.

(** [defer d] in front of [body]: [d] runs when [body] returns or panics. *)
Definition defer {A} (d : M unit) (body : M A) : M A :=
  fun s =>
    match body s with
    | mkRan Blocked s1 t1 => mkRan Blocked s1 t1
    | mkRan o s1 t1 =>
        match d s1 with
        | mkRan _ s2 t2 => mkRan o s2 (t1 ++ t2)%list
        end
    end.

(** A method called through a pointer field panics when the field is nil. *)
Definition nilPanic : string := "invalid memory address or nil pointer dereference".

Definition the_Store : M Store :=
  c <- get_self ;;
  match c_Store c with
  | Some st => ret st
  | None => panic nilPanic
  end.

Definition the_HTTPServer : M HTTPServer :=
  c <- get_self ;;
  match c_HTTPServer c with
  | Some srv => ret srv
  | None => panic nilPanic
  end.

Definition set_cmd (v : string * list string) (c : MountCommand) : MountCommand :=
  {| c_cmd := Some v; c_Config := c_Config c; c_Store := c_Store c;
     c_Leaser := c_Leaser c; c_FileSystem := c_FileSystem c;
     c_HTTPServer := c_HTTPServer c; c_ProxyServer := c_ProxyServer c;
     c_AdvertiseURLFn := c_AdvertiseURLFn c |}.

Definition set_Store (v : Store) (c : MountCommand) : MountCommand :=
  {| c_cmd := c_cmd c; c_Config := c_Config c; c_Store := Some v;
     c_Leaser := c_Leaser c; c_FileSystem := c_FileSystem c;
     c_HTTPServer := c_HTTPServer c; c_ProxyServer := c_ProxyServer c;
     c_AdvertiseURLFn := c_AdvertiseURLFn c |}.

Definition set_Leaser (v : Leaser) (c : MountCommand) : MountCommand :=
  {| c_cmd := c_cmd c; c_Config := c_Config c; c_Store := c_Store c;
     c_Leaser := Some v; c_FileSystem := c_FileSystem c;
     c_HTTPServer := c_HTTPServer c; c_ProxyServer := c_ProxyServer c;
     c_AdvertiseURLFn := c_AdvertiseURLFn c |}.

Definition set_FileSystem (v : FileSystem) (c : MountCommand) : MountCommand :=
  {| c_cmd := c_cmd c; c_Config := c_Config c; c_Store := c_Store c;
     c_Leaser := c_Leaser c; c_FileSystem := Some v;
     c_HTTPServer := c_HTTPServer c; c_ProxyServer := c_ProxyServer c;
     c_AdvertiseURLFn := c_AdvertiseURLFn c |}.

Definition set_HTTPServer (v : HTTPServer) (c : MountCommand) : MountCommand :=
  {| c_cmd := c_cmd c; c_Config := c_Config c; c_Store := c_Store c;
     c_Leaser := c_Leaser c; c_FileSystem := c_FileSystem c;
     c_HTTPServer := Some v; c_ProxyServer := c_ProxyServer c;
     c_AdvertiseURLFn := c_AdvertiseURLFn c |}.

Definition set_ProxyServer (v : ProxyServer) (c : MountCommand) : MountCommand :=
  {| c_cmd := c_cmd c; c_Config := c_Config c; c_Store := c_Store c;
     c_Leaser := c_Leaser c; c_FileSystem := c_FileSystem c;
     c_HTTPServer := c_HTTPServer c; c_ProxyServer := Some v;
     c_AdvertiseURLFn := c_AdvertiseURLFn c |}.

Definition with_Leaser (v : option Leaser) (st : Store) : Store :=
  {| store_Path := store_Path st; store_candidate := store_candidate st;
     store_StrictVerify := store_StrictVerify st; Compress := Compress st;
     Retention := Retention st; RetentionMonitorInterval := RetentionMonitorInterval st;
     ReconnectDelay := ReconnectDelay st; DemoteDelay := DemoteDelay st;
     store_Client := store_Client st;
     store_Leaser := v; Invalidator := Invalidator st |}.

Definition with_Invalidator (v : FileSystem) (st : Store) : Store :=
  {| store_Path := store_Path st; store_candidate := store_candidate st;
     store_StrictVerify := store_StrictVerify st; Compress := Compress st;
     Retention := Retention st; RetentionMonitorInterval := RetentionMonitorInterval st;
     ReconnectDelay := ReconnectDelay st; DemoteDelay := DemoteDelay st;
     store_Client := store_Client st;
     store_Leaser := store_Leaser st; Invalidator := Some v |}.

(** Modelled from the spec: [Store.Candidate] belongs to package [litefs],
    which is not part of the source at hand.  The spec has [Candidate() bool]
    as static, from configuration: the candidacy flag is a per-node boolean
    set at configuration time.  The store is built by
    [litefs.NewStore(dir, candidate)] and answers with that flag. *)
Definition Candidate (st : Store) : bool := store_candidate st.

(** [expvarOnce.Do(f)]: [sync.Once] runs [f] on the first [Do] only. *)
Definition expvarOnce_Do (f : M unit) : M unit :=
  fun s =>
    if expvarOnce s then mkRan (Returned tt) s []
    else
      match f s with
      | mkRan o s1 t1 => mkRan o {| self := self s1; expvarOnce := true |} t1
      end.

(** ** The methods of [MountCommand] *)

Section Methods.

Variable env : Env.

(** Modelled from the spec: [consul.NewLeaser] belongs to package [consul],
    which is not part of the source at hand.  The spec has the distributed
    variant constructed with (serviceURL, lockKey, hostname, advertiseURL),
    with a configurable TTL (default value, overridable) and LockDelay
    (default value, overridable); the two default values are taken from the
    environment. *)
Definition consul_NewLeaser (url key hostname advertiseURL : string) : consul_Leaser :=
  {| leaser_URL := url; leaser_Key := key;
     leaser_Hostname := hostname; leaser_AdvertiseURL := advertiseURL;
     TTL := consul_DefaultTTL env; LockDelay := consul_DefaultLockDelay env |}.

Definition set_TTL (v : Duration) (l : consul_Leaser) : consul_Leaser :=
  {| leaser_URL := leaser_URL l; leaser_Key := leaser_Key l;
     leaser_Hostname := leaser_Hostname l; leaser_AdvertiseURL := leaser_AdvertiseURL l;
     TTL := v; LockDelay := LockDelay l |}.

Definition set_LockDelay (v : Duration) (l : consul_Leaser) : consul_Leaser :=
  {| leaser_URL := leaser_URL l; leaser_Key := leaser_Key l;
     leaser_Hostname := leaser_Hostname l; leaser_AdvertiseURL := leaser_AdvertiseURL l;
     TTL := TTL l; LockDelay := v |}.

Definition initConsul : M unit :=
  c <- get_self ;;
  hostname <-
    (if Lease_Hostname (Lease (c_Config c)) =? "" then
       emit EvHostname ;;
       match os_Hostname env with
       | inl h => ret h
       | inr err => fail err
       end
     else ret (Lease_Hostname (Lease (c_Config c)))) ;;
  let advertiseURL :=
    match c_AdvertiseURLFn c with
    | Some injected => injected
    | None => Lease_AdvertiseURL (Lease (c_Config c))
    end in
  advertiseURL <-
    (if (advertiseURL =? "") && negb (hostname =? "") then
       _ <- the_HTTPServer ;;
       ret ("http://" ++ hostname ++ ":" ++ itoa (http_Port env))
     else ret advertiseURL) ;;
  let leaser :=
    consul_NewLeaser (Consul_URL (Lease_Consul (Lease (c_Config c))))
                     (Consul_Key (Lease_Consul (Lease (c_Config c))))
                     hostname advertiseURL in
  let leaser :=
    if (Consul_TTL (Lease_Consul (Lease (c_Config c))) >? 0)%Z
    then set_TTL (Consul_TTL (Lease_Consul (Lease (c_Config c)))) leaser
    else leaser in
  let leaser :=
    if (Consul_LockDelay (Lease_Consul (Lease (c_Config c))) >? 0)%Z
    then set_LockDelay (Consul_LockDelay (Lease_Consul (Lease (c_Config c)))) leaser
    else leaser in
  emit (EvConsulOpen leaser) ;;
  wrapping "cannot connect to consul" (check (leaser_Open env)) ;;
  log "initializing consul: key=%s url=%s hostname=%s advertise-url=%s"
      [Consul_Key (Lease_Consul (Lease (c_Config c)));
       Consul_URL (Lease_Consul (Lease (c_Config c))); hostname; advertiseURL] ;;
  modify (set_Leaser (ConsulLeaser leaser)).

Definition initStore : M unit :=
  c <- get_self ;;
  modify (set_Store
    {| store_Path := Data_Dir (Data (c_Config c));
       store_candidate := Lease_Candidate (Lease (c_Config c));
       store_StrictVerify := StrictVerify (c_Config c);
       Compress := Data_Compress (Data (c_Config c));
       Retention := Data_Retention (Data (c_Config c));
       RetentionMonitorInterval := Data_RetentionMonitorInterval (Data (c_Config c));
       ReconnectDelay := Lease_ReconnectDelay (Lease (c_Config c));
       DemoteDelay := Lease_DemoteDelay (Lease (c_Config c));
       store_Client := Some NewClient;
       store_Leaser := None; Invalidator := None |}).

Definition openStore : M unit :=
  st <- the_Store ;;
  c <- get_self ;;
  modify (set_Store (with_Leaser (c_Leaser c) st)) ;;
  emit (EvStoreOpen (with_Leaser (c_Leaser c) st)) ;;
  check (store_Open env) ;;
  expvarOnce_Do (emit (EvExpvarPublish "store")).

Definition initFileSystem : M unit :=
  c <- get_self ;;
  let fsys := {| fs_Path := FUSE_Dir (FUSE (c_Config c));
                 AllowOther := FUSE_AllowOther (FUSE (c_Config c));
                 fs_Debug := FUSE_Debug (FUSE (c_Config c)) |} in
  emit (EvMount fsys) ;;
  match fsys_Mount env with
  | Some err => fail (errorString ("cannot open file system: " ++ Error err))
  | None => ret tt
  end ;;
  st <- the_Store ;;
  modify (set_Store (with_Invalidator fsys st)) ;;
  modify (set_FileSystem fsys).

Definition initHTTPServer : M unit :=
  c <- get_self ;;
  let server := {| server_Addr := HTTP_Addr (HTTP (c_Config c)) |} in
  emit (EvHTTPListen server) ;;
  wrapping "cannot open http server" (check (http_Listen env)) ;;
  modify (set_HTTPServer server).

Fixpoint compilePassthroughs (exprs passthroughs : list string) : M (list string) :=
  match exprs with
  | [] => ret passthroughs
  | s :: rest =>
      match http_CompileMatch env s with
      | Some _ =>
          fail (errorString ("cannot parse proxy passthrough expression: "
                             ++ strconv_Quote env s))
      | None => compilePassthroughs rest (passthroughs ++ [s])%list
      end
  end.

Definition initProxyServer : M unit :=
  c <- get_self ;;
  if Proxy_Target (Proxy (c_Config c)) =? "" then
    log "no proxy target set, skipping proxy" []
  else
    passthroughs <- compilePassthroughs (Proxy_Passthrough (Proxy (c_Config c))) [] ;;
    let server := {| Target := Proxy_Target (Proxy (c_Config c));
                     DBName := Proxy_DB (Proxy (c_Config c));
                     proxy_Addr := Proxy_Addr (Proxy (c_Config c));
                     proxy_Debug := Proxy_Debug (Proxy (c_Config c));
                     Passthroughs := passthroughs |} in
    emit (EvProxyListen server) ;;
    check (proxy_Listen env) ;;
    modify (set_ProxyServer server).

Definition execSyncCmd (name : string) (args : list string) : M unit :=
  log "executing command: %s %v" [name; fmt_slice args] ;;
  modify (set_cmd (name, args)) ;;
  emit (EvCmdRun name args) ;;
  wrapping "cannot run command" (check (cmd_Run env name args)).

Definition execBackgroundCmd (name : string) (args : list string) : M unit :=
  log "starting background subprocess: %s %v" [name; fmt_slice args] ;;
  modify (set_cmd (name, args)) ;;
  emit (EvCmdStart name args) ;;
  wrapping "cannot start exec command" (check (cmd_Start env name args)) ;;
  emit EvGoWait.

(** The body of the loop of [execCmds] from index [i] on, over the rest
    [configs] of a slice of length [len]. *)
Fixpoint execCmds_from (len : Z) (i : Z) (configs : list ExecConfig) : M unit :=
  match configs with
  | [] => ret tt
  | config :: rest =>
      args <-
        match shellwords_Parse env (Cmd config) with
        | inl args => ret args
        | inr err =>
            fail (wrapError ("cannot parse exec command[" ++ itoa i ++ "]") err)
        end ;;
      match args with
      | [] => panic "index out of range [0] with length 0"
      | name :: args =>
          skip <-
            (if IfCandidate config then
               st <- the_Store ;; ret (negb (Candidate st))
             else ret false) ;;
          if (skip : bool) then
            log "node is not a candidate, skipping command execution: %s %v"
                [name; fmt_slice args] ;;
            execCmds_from len (i + 1) rest
          else
            (if (i <? len - 1)%Z then wrapping "sync cmd" (execSyncCmd name args)
             else wrapping "background cmd" (execBackgroundCmd name args)) ;;
            execCmds_from len (i + 1) rest
      end
  end.

Definition execCmds : M unit :=
  c <- get_self ;;
  execCmds_from (Z.of_nat (length (Exec (c_Config c)))) 0 (Exec (c_Config c)).

(** The loop of [promote]: its [select] has a case for the timeout ticker
    and a case for the millisecond ticker, and no other. *)
Fixpoint promote_wait (timeline : list happening) : M unit :=
  match timeline with
  | [] => blocked
  | CtxCanceled :: rest => promote_wait rest
  | TimeoutFired :: _ =>
      emit EvRecvTimeout ;;
      fail (errorString "timed out waiting for promotion")
  | TickerFired storeIsPrimary :: rest =>
      emit EvRecvTick ;;
      emit (EvIsPrimary storeIsPrimary) ;;
      if storeIsPrimary then ret tt else promote_wait rest
  end.

Definition promote : M unit :=
  _ <- the_Store ;;
  emit EvPrimaryInfo ;;
  if fst (store_PrimaryInfo env) then
    log "node is already primary, skipping promotion" []
  else
    emit (EvHandoff (snd (store_PrimaryInfo env)) (store_ID env)) ;;
    wrapping "handoff"
      (check (client_Handoff env (snd (store_PrimaryInfo env)) (store_ID env))) ;;
    emit (EvNewTicker (1 * Millisecond)) ;;
    defer (emit (EvTickerStop (1 * Millisecond)))
      (emit (EvNewTicker (10 * Second)) ;;
       defer (emit (EvTickerStop (10 * Second)))
         (promote_wait (promote_timeline env))).

(** [Run], in the three stretches its comments mark: everything up to the
    HTTP server serving, the wait for the cluster, and the start of the
    proxy server and of the subcommands. *)
Definition Run_start : M unit :=
  emit (EvPrintln (VersionString env)) ;;
  wrapping "cannot init store" initStore ;;
  wrapping "cannot init http server" initHTTPServer ;;
  wrapping "cannot init proxy server" initProxyServer ;;
  c <- get_self ;;
  (if Lease_Type (Lease (c_Config c)) =? LeaseTypeConsul then
     log "Using Consul to determine primary" [] ;;
     wrapping "cannot init consul" initConsul
   else if Lease_Type (Lease (c_Config c)) =? LeaseTypeStatic then
     log "Using static primary: primary=%v hostname=%s advertise-url=%s"
         [fmt_bool (Lease_Candidate (Lease (c_Config c)));
          Lease_Hostname (Lease (c_Config c));
          Lease_AdvertiseURL (Lease (c_Config c))] ;;
     modify (set_Leaser (StaticLeaser (Lease_Candidate (Lease (c_Config c)))
                                      (Lease_Hostname (Lease (c_Config c)))
                                      (Lease_AdvertiseURL (Lease (c_Config c)))))
   else
     fail (errorString ("invalid lease type: "
                        ++ strconv_Quote env (Lease_Type (Lease (c_Config c)))))) ;;
  wrapping "cannot open store" openStore ;;
  wrapping "cannot init file system" initFileSystem ;;
  fsys <- (c <- get_self ;;
           match c_FileSystem c with
           | Some fsys => ret fsys
           | None => panic nilPanic
           end) ;;
  log "LiteFS mounted to: %s" [fs_Path fsys] ;;
  _ <- the_HTTPServer ;;
  emit EvHTTPServe ;;
  log "http server listening on: %s" [http_URL env].

Definition Run_sync : M unit :=
  c <- get_self ;;
  if SkipSync (c_Config c) then
    log "skipping cluster sync, starting immediately" []
  else
    log "waiting to connect to cluster" [] ;;
    match ready_wait env with
    | None => blocked
    | Some CtxDone => emit EvRecvCtxDone ;; fail (ctx_Cause env)
    | Some StoreReady => emit EvRecvReady ;; log "connected to cluster, ready" []
    end ;;
    if Lease_Promote (Lease (c_Config c)) then
      st <- the_Store ;;
      if Candidate st then
        log "node is a candidate, automatically promoting to primary" [] ;;
        wrapping "promote" promote
      else
        log "node is not a candidate, skipping automatic promotion" []
    else ret tt.

Definition Run_serve : M unit :=
  c <- get_self ;;
  match c_ProxyServer c with
  | Some _ =>
      emit EvProxyServe ;;
      log "proxy server listening on: %s" [proxy_URL env]
  | None => ret tt
  end ;;
  if (Z.of_nat (length (Exec (c_Config c))) >? 0)%Z then
    wrapping "cannot exec" execCmds
  else ret tt.

Definition Run : M unit :=
  Run_start ;;
  Run_sync ;;
  Run_serve.

End Methods.

(** ** A concrete environment and configuration

    Used to run the methods on explicit inputs. *)

(** Splits a line at single spaces. *)
Fixpoint fields (cur : string) (s : string) : list string :=
  match s with
  | EmptyString => if cur =? "" then [] else [cur]
  | String a rest =>
      if Ascii.eqb a " "%char
      then (if cur =? "" then fields "" rest else cur :: fields "" rest)
      else fields (cur ++ String a EmptyString) rest
  end.

Fixpoint count_char (a : ascii) (s : string) : nat :=
  match s with
  | EmptyString => O
  | String b rest => (if Ascii.eqb a b then 1 else 0) + count_char a rest
  end.

(** A stand-in for [shellwords.Parse] on lines of plain words: a line with an
    unclosed single quote is refused, as the library does; any other line
    is split at spaces. *)
Definition plain_Parse (line : string) : list string + error :=
  if Nat.odd (count_char "'"%char line)
  then inr (errorString "invalid command line string")
  else inl (fields "" line).

Definition sample_env_at (info : bool * string) (timeline : list happening)
    (opened : option error) : Env :=
  {| VersionString := "LiteFS development build";
     strconv_Quote := fun s => "'" ++ s ++ "'";
     os_Hostname := inl "oshost";
     http_Listen := None;
     http_Port := 20202;
     http_URL := "http://localhost:20202";
     http_CompileMatch := fun _ => None;
     proxy_Listen := None;
     proxy_URL := "http://localhost:8080";
     consul_DefaultTTL := 10 * Second;
     consul_DefaultLockDelay := 1 * Second;
     leaser_Open := None;
     store_Open := opened;
     fsys_Mount := None;
     ready_wait := Some StoreReady;
     ctx_Cause := errorString "context canceled";
     store_PrimaryInfo := info;
     store_ID := 7;
     client_Handoff := fun _ _ => None;
     promote_timeline := timeline;
     shellwords_Parse := plain_Parse;
     cmd_Run := fun _ _ => None;
     cmd_Start := fun _ _ => None |}.

Definition sample_env : Env :=
  sample_env_at (false, "http://primary:20202") [TickerFired false; TickerFired true] None.

Definition sample_config_with (candidate skipSync : bool) (exec : list ExecConfig) : Config :=
  {| FUSE := {| FUSE_Dir := "/litefs"; FUSE_AllowOther := false; FUSE_Debug := false |};
     Data := {| Data_Dir := "/var/lib/litefs"; Data_Compress := true;
                Data_Retention := 600 * Second;
                Data_RetentionMonitorInterval := 60 * Second |};
     Lease := {| Lease_Type := "consul"; Lease_Hostname := "node1";
                 Lease_AdvertiseURL := ""; Lease_Candidate := candidate;
                 Lease_Promote := true;
                 Lease_ReconnectDelay := 1 * Second; Lease_DemoteDelay := 10 * Second;
                 Lease_Consul := {| Consul_URL := "http://consul:8500";
                                    Consul_Key := "litefs/primary";
                                    Consul_TTL := 0; Consul_LockDelay := 5 * Second |} |};
     HTTP := {| HTTP_Addr := ":20202" |};
     Proxy := {| Proxy_Addr := ":8080"; Proxy_Target := "localhost:8081";
                 Proxy_DB := "db"; Proxy_Debug := false; Proxy_Passthrough := ["*.png"] |};
     Exec := exec;
     SkipSync := skipSync;
     StrictVerify := false |}.

Definition sample_exec : list ExecConfig :=
  [ {| Cmd := "migrate up"; IfCandidate := true |};
    {| Cmd := "app -addr :8081"; IfCandidate := false |} ].

Definition sample_config : Config := sample_config_with true false sample_exec.

(** [NewMountCommand], with the configuration filled in. *)
Definition NewMountCommand (cfg : Config) : MountCommand :=
  {| c_cmd := None; c_Config := cfg; c_Store := None; c_Leaser := None;
     c_FileSystem := None; c_HTTPServer := None; c_ProxyServer := None;
     c_AdvertiseURLFn := None |}.

(** The state of a fresh process: nothing published yet. *)
Definition fresh (cfg : Config) : state :=
  {| self := NewMountCommand cfg; expvarOnce := false |}.

(** Modelled from the spec: the entry point of the command, which calls
    [Validate] before [Run], is not part of the source at hand.  The spec has
    an invalid configuration (bad lease-type value, missing required fields)
    as fatal at startup: the process must not proceed. *)
Definition startup (env : Env) : M unit :=
  c <- get_self ;;
  check (Validate c) ;;
  Run env.

(** A series of calls of [openStore] in one process, each with the answers
    the environment gives at its time; the package variable [expvarOnce] is
    carried from one call to the next. *)
Fixpoint openStore_calls (envs : list Env) (s : state) : list (ran unit) :=
  match envs with
  | [] => []
  | env :: rest =>
      let r := openStore env s in
      r :: openStore_calls rest (final r)
  end.

(** ** Reading traces *)

Definition is_publish (e : event) : bool :=
  match e with
  | EvExpvarPublish _ => true
  | _ => false
  end.

(** How many times a call published. *)
Definition publishes {A} (r : ran A) : nat := length (filter is_publish (trace r)).

(** The events that take outside traffic or start a subprocess. *)
Definition serves_or_spawns (e : event) : bool :=
  match e with
  | EvProxyServe | EvCmdRun _ _ | EvCmdStart _ _ => true
  | _ => false
  end.

(** The events of the wait for the cluster and of promotion. *)
Definition waits_or_promotes (e : event) : bool :=
  match e with
  | EvRecvCtxDone | EvRecvReady
  | EvPrimaryInfo | EvHandoff _ _ | EvNewTicker _ | EvTickerStop _
  | EvRecvTimeout | EvRecvTick | EvIsPrimary _ => true
  | _ => false
  end.

(** The events of [Run] before the HTTP server serves. *)
Definition setup_event (e : event) : bool :=
  match e with
  | EvPrintln _ | EvLog _ _ | EvHostname | EvHTTPListen _ | EvProxyListen _
  | EvConsulOpen _ | EvStoreOpen _ | EvExpvarPublish _ | EvMount _ => true
  | _ => false
  end.

(** The events of the last stretch of [Run]. *)
Definition serve_event (e : event) : bool :=
  match e with
  | EvLog _ _ | EvProxyServe | EvCmdRun _ _ | EvCmdStart _ _ | EvGoWait => true
  | _ => false
  end.

(** The subprocesses a trace ran or started, in order. *)
Definition exec_calls (t : list event) : list (string * list string) :=
  flat_map (fun e => match e with
                     | EvCmdRun name args | EvCmdStart name args => [(name, args)]
                     | _ => []
                     end) t.

(** The subprocess an [exec] entry stands for, when its line parses to at
    least one word. *)
Definition command_of (env : Env) (config : ExecConfig) : list (string * list string) :=
  match shellwords_Parse env (Cmd config) with
  | inl (name :: args) => [(name, args)]
  | _ => []
  end.

(** What the loop of [promote] does on the ticks of a stretch of timeline
    on which the store never answers that it is primary. *)
Definition poll_events (timeline : list happening) : list event :=
  flat_map (fun h => match h with
                     | TickerFired b => [EvRecvTick; EvIsPrimary b]
                     | _ => []
                     end) timeline.

(** The four ways a configuration is invalid. *)
Definition invalid_config (cfg : Config) : Prop :=
  FUSE_Dir (FUSE cfg) = "" \/
  Data_Dir (Data cfg) = "" \/
  FUSE_Dir (FUSE cfg) = Data_Dir (Data cfg) \/
  (Lease_Type (Lease cfg) <> "consul" /\ Lease_Type (Lease cfg) <> "static").

(** ** What the properties speak of *)

(** The cancellation of the context among the happenings. *)
Definition is_cancel (h : happening) : bool :=
  match h with
  | CtxCanceled => true
  | _ => false
  end.

(** A stretch of the timeline on which nothing ends the wait of [promote]. *)
Definition undecided (pre : list happening) : Prop :=
  Forall (fun h => h <> TimeoutFired /\ h <> TickerFired true) pre.

(** The hostname [initConsul] works with: the configured one, or the one of
    the operating system when none is configured. *)
Definition resolved_hostname (env : Env) (cfg : Config) : string + error :=
  if Lease_Hostname (Lease cfg) =? "" then os_Hostname env
  else inl (Lease_Hostname (Lease cfg)).

(** The reading of C9 as it stands: in every series of calls that starts
    with [expvarOnce] not yet run and a store in place, the first call
    publishes and no later call does. *)
Definition publishes_on_first_call_only : Prop :=
  forall envs s r rest,
    expvarOnce s = false ->
    c_Store (self s) <> None ->
    openStore_calls envs s = r :: rest ->
    publishes r = 1%nat /\ Forall (fun r' => publishes r' = O) rest.

(** [m], started in a state of [pre], emits only events of [P] and, when it
    returns, leaves a state of [post]. *)
Definition hoare {A} (pre : state -> Prop) (m : M A) (P : event -> Prop)
    (post : A -> state -> Prop) : Prop :=
  forall s, pre s ->
    Forall P (trace (m s)) /\
    forall a, result (m s) = Returned a -> post a (final (m s)).

(** [Q] holds of a run with only events of [P] that did not return, and
    still holds when events of [P] are put in front of a run. *)
Definition absorbs {B} (P : event -> Prop) (Q : ran B -> Prop) : Prop :=
  (forall o s t0 t, Forall P t0 -> Q (mkRan o s t) -> Q (mkRan o s (t0 ++ t)%list)) /\
  (forall s t, Forall P t ->
     (forall err, Q (mkRan (Failed err) s t)) /\
     (forall msg, Q (mkRan (Panicked msg) s t)) /\
     Q (mkRan Blocked s t)).

(** [setup_event], [serve_event] and the negation of [serves_or_spawns] as
    predicates. *)
Definition setupP (e : event) : Prop := setup_event e = true.
Definition serveP (e : event) : Prop := serve_event e = true.

(** The state [Run] works in once the store and the HTTP server are made:
    the configuration is [cfg], the store is there and is a candidate as the
    configuration says, the HTTP server is there. *)
Definition ready_state (cfg : Config) (s : state) : Prop :=
  c_Config (self s) = cfg /\
  (exists st, c_Store (self s) = Some st /\
              Candidate st = Lease_Candidate (Lease cfg)) /\
  c_HTTPServer (self s) <> None.

(** How [Run_start] ends: when it returns, the state is ready and the last
    two events are the HTTP server serving and the log line that says so,
    after events of the setup only; otherwise all its events are of the
    setup. *)
Definition started (env : Env) (cfg : Config) (r : ran unit) : Prop :=
  match result r with
  | Returned _ =>
      ready_state cfg (final r) /\
      exists t, trace r = (t ++ [EvHTTPServe;
                                 EvLog "http server listening on: %s" [http_URL env]])%list
                /\ Forall setupP t
  | _ => Forall setupP (trace r)
  end.

(** The events of promotion. *)
Definition promotes (e : event) : bool :=
  match e with
  | EvPrimaryInfo | EvHandoff _ _ | EvNewTicker _ | EvTickerStop _
  | EvRecvTimeout | EvRecvTick | EvIsPrimary _ => true
  | _ => false
  end.

(** The events of [Run_sync] when it does not promote. *)
Definition sync_event (e : event) : bool :=
  match e with
  | EvLog _ _ | EvRecvCtxDone | EvRecvReady => true
  | _ => false
  end.

(** [m] emits only events of [P], whatever the state. *)
Definition emits {A} (P : event -> Prop) (m : M A) : Prop :=
  hoare (fun _ => True) m P (fun _ _ => True).

(** Every event of [t] that takes outside traffic or starts a subprocess
    comes after the store was ready. *)
Definition only_after_ready (t : list event) : Prop :=
  forall before e after,
    t = (before ++ e :: after)%list ->
    serves_or_spawns e = true ->
    In EvRecvReady before.

Definition quietP (e : event) : Prop := serves_or_spawns e = false.

(** The subprocesses of the [exec] entries that are not marked
    candidate-only, in order. *)
Definition runnable (env : Env) (configs : list ExecConfig) : list (string * list string) :=
  flat_map (command_of env) (filter (fun config => negb (IfCandidate config)) configs).

(** The reading of C7 as it stands, on the loop of [execCmds]: on a node
    whose store is not a candidate, an entry marked candidate-only is passed
    over and the loop goes on with the entries that remain, so that it ends
    as it does on them and runs the subprocesses it runs on them. *)
Definition skips_and_continues : Prop :=
  forall env len i config rest s st,
    c_Store (self s) = Some st ->
    Candidate st = false ->
    IfCandidate config = true ->
    result (execCmds_from env len i (config :: rest) s)
    = result (execCmds_from env len (i + 1) rest s) /\
    exec_calls (trace (execCmds_from env len i (config :: rest) s))
    = exec_calls (trace (execCmds_from env len (i + 1) rest s)).

(** Two [exec] entries: a candidate-only one whose line has an unclosed
    quote, and the application. *)
Definition unparsable_then_app : list ExecConfig :=
  [ {| Cmd := "'"; IfCandidate := true |};
    {| Cmd := "app"; IfCandidate := false |} ].

(** ** Closing

    [Close] changes no field and stops at no error, so it is a function from
    the command and the answers of the four collaborators to the calls it
    makes and the error it returns. *)

(** The calls of [Close]. *)
Inductive closing : Type :=
| ClProxyServer
| ClHTTPServer
| ClUnmount
| ClStore.

(** What [ProxyServer.Close], [HTTPServer.Close], [FileSystem.Unmount] and
    [Store.Close] answer. *)
Record CloseEnv := {
  proxy_Close : option error;
  http_Close : option error;
  fsys_Unmount : option error;
  store_Close : option error
}.

(** [if e := call; err == nil { err = e }]. *)
Definition keep_first (err e : option error) : option error :=
  match err with
  | None => e
  | Some _ => err
  end.

Definition Close (cenv : CloseEnv) (c : MountCommand) : list closing * option error :=
  let r0 : list closing * option error := ([], None) in
  let r1 :=
    match c_ProxyServer c with
    | Some _ => (fst r0 ++ [ClProxyServer], keep_first (snd r0) (proxy_Close cenv))%list
    | None => r0
    end in
  let r2 :=
    match c_HTTPServer c with
    | Some _ => (fst r1 ++ [ClHTTPServer], keep_first (snd r1) (http_Close cenv))%list
    | None => r1
    end in
  let r3 :=
    match c_FileSystem c with
    | Some _ => (fst r2 ++ [ClUnmount], keep_first (snd r2) (fsys_Unmount cenv))%list
    | None => r2
    end in
  match c_Store c with
  | Some _ => (fst r3 ++ [ClStore], keep_first (snd r3) (store_Close cenv))%list
  | None => r3
  end.

(** A pointer field that is not nil. *)
Definition is_set {A} (field : option A) : bool :=
  match field with
  | Some _ => true
  | None => false
  end.

(** The calls [Close] owes to a command: one for each field that is set, in
    the order proxy server, HTTP server, file system, store. *)
Definition owed (c : MountCommand) : list closing :=
  ((if is_set (c_ProxyServer c) then [ClProxyServer] else []) ++
   (if is_set (c_HTTPServer c) then [ClHTTPServer] else []) ++
   (if is_set (c_FileSystem c) then [ClUnmount] else []) ++
   (if is_set (c_Store c) then [ClStore] else []))%list.

(** What the collaborator behind a call of [Close] answers. *)
Definition answer (cenv : CloseEnv) (call : closing) : option error :=
  match call with
  | ClProxyServer => proxy_Close cenv
  | ClHTTPServer => http_Close cenv
  | ClUnmount => fsys_Unmount cenv
  | ClStore => store_Close cenv
  end.

(** The first error in a list of answers. *)
Fixpoint first_error (answers : list (option error)) : option error :=
  match answers with
  | [] => None
  | Some err :: _ => Some err
  | None :: rest => first_error rest
  end.

(** What a run that has emitted the events [t] and stands in the state [s]
    has on record of what it opened: the store; the HTTP server, when it was
    told to listen and did; the proxy server, when it was told to listen and
    did; the file system, when it was mounted. *)
Definition recorded (env : Env) (t : list event) (s : state) : Prop :=
  c_Store (self s) <> None /\
  (http_Listen env = None -> (exists srv, In (EvHTTPListen srv) t) ->
   c_HTTPServer (self s) <> None) /\
  (proxy_Listen env = None -> (exists srv, In (EvProxyListen srv) t) ->
   c_ProxyServer (self s) <> None) /\
  (fsys_Mount env = None -> (exists fsys, In (EvMount fsys) t) ->
   c_FileSystem (self s) <> None).

(** [m] keeps [J], a property of the events emitted so far and of the state:
    run after events and in a state of [J], it leaves events and a state of
    [J], however it ends. *)
Definition keeps {A} (J : list event -> state -> Prop) (m : M A) : Prop :=
  forall t0 s, J t0 s -> J (t0 ++ trace (m s))%list (final (m s)).

(** [m] keeps the record of what was opened. *)
Definition ledger {A} (env : Env) (m : M A) : Prop := keeps (recorded env) m.

(** The events of the wait for the cluster, of promotion and of the last
    stretch of [Run]. *)
Definition late_event (e : event) : bool :=
  match e with
  | EvLog _ _ | EvRecvCtxDone | EvRecvReady
  | EvPrimaryInfo | EvHandoff _ _ | EvNewTicker _ | EvTickerStop _
  | EvRecvTimeout | EvRecvTick | EvIsPrimary _
  | EvProxyServe | EvCmdRun _ _ | EvCmdStart _ _ | EvGoWait => true
  | _ => false
  end.

(** [expvarOnce] as a count: 1 once its [Do] has run. *)
Definition once_count (s : state) : nat := if expvarOnce s then 1%nat else O.

(** The publications among the events [t] of a run started in [s0] account
    for [expvarOnce]: as many as it went up. *)
Definition once_inv (s0 : state) (t : list event) (s : state) : Prop :=
  (length (filter is_publish t) + once_count s0 = once_count s)%nat.

(** A series of calls of [Run] in one process, as in the tests: each on a
    command of its own, with the answers the environment gives at its time;
    the package variable [expvarOnce] is carried from one call to the
    next. *)
Fixpoint Run_calls (runs : list (Env * MountCommand)) (once : bool) : list (ran unit) :=
  match runs with
  | [] => []
  | (env, c) :: rest =>
      let r := Run env {| self := c; expvarOnce := once |} in
      r :: Run_calls rest (expvarOnce (final r))
  end.

(** The tickers a trace made and the tickers it stopped, by their periods,
    in order. *)
Definition tickers_made (t : list event) : list Duration :=
  flat_map (fun e => match e with EvNewTicker d => [d] | _ => [] end) t.

Definition tickers_stopped (t : list event) : list Duration :=
  flat_map (fun e => match e with EvTickerStop d => [d] | _ => [] end) t.

(** The events of the loop of [promote]. *)
Definition poll_event (e : event) : bool :=
  match e with
  | EvRecvTick | EvIsPrimary _ | EvRecvTimeout => true
  | _ => false
  end.

(** Whether the loop of [execCmds] passes over an entry, on a store [st]. *)
Definition skipped (st : Store) (config : ExecConfig) : bool :=
  IfCandidate config && negb (Candidate st).

(** The subprocesses of the entries the loop does not pass over, in order. *)
Definition due (env : Env) (st : Store) (configs : list ExecConfig)
  : list (string * list string) :=
  flat_map (command_of env) (filter (fun config => negb (skipped st config)) configs).

(** The subprocesses a trace ran to their end, and those it started in the
    background. *)
Definition ran_calls (t : list event) : list (string * list string) :=
  flat_map (fun e => match e with EvCmdRun name args => [(name, args)] | _ => [] end) t.

Definition started_calls (t : list event) : list (string * list string) :=
  flat_map (fun e => match e with EvCmdStart name args => [(name, args)] | _ => [] end) t.

(** The last entry of a slice, as a slice of one, or of none. *)
Definition last_entry (configs : list ExecConfig) : list ExecConfig :=
  skipn (pred (length configs)) configs.

(** The events [t] in front of a run. *)
Definition prepend {A} (t : list event) (r : ran A) : ran A :=
  mkRan (result r) (final r) (t ++ trace r)%list.

(** The line of an entry parses to at least one word. *)
Definition parses (env : Env) (config : ExecConfig) : Prop :=
  exists name args, shellwords_Parse env (Cmd config) = inl (name :: args).

(** The state after [c.cmd] is set. *)
Definition with_cmd (v : string * list string) (s : state) : state :=
  {| self := set_cmd v (self s); expvarOnce := expvarOnce s |}.

(** The first passthrough expression [http.CompileMatch] refuses, if any. *)
Definition first_refused (env : Env) (exprs : list string) : option string :=
  find (fun s => is_set (http_CompileMatch env s)) exprs.

(** The proxy server of a config: its fields as the config has them, the
    passthrough expressions in the order of the config. *)
Definition configured_proxy (cfg : Config) : ProxyServer :=
  {| Target := Proxy_Target (Proxy cfg);
     DBName := Proxy_DB (Proxy cfg);
     proxy_Addr := Proxy_Addr (Proxy cfg);
     proxy_Debug := Proxy_Debug (Proxy cfg);
     Passthroughs := Proxy_Passthrough (Proxy cfg) |}.

(** The events of [Run] before it decides on a leaser. *)
Definition listen_event (e : event) : bool :=
  match e with
  | EvPrintln _ | EvLog _ _ | EvHTTPListen _ | EvProxyListen _ => true
  | _ => false
  end.

(** The store of a config as [litefs.NewStore] and the assignments of
    [initStore] leave it: no leaser yet and no invalidator. *)
Definition configured_store (cfg : Config) : Store :=
  {| store_Path := Data_Dir (Data cfg);
     store_candidate := Lease_Candidate (Lease cfg);
     store_StrictVerify := StrictVerify cfg;
     Compress := Data_Compress (Data cfg);
     Retention := Data_Retention (Data cfg);
     RetentionMonitorInterval := Data_RetentionMonitorInterval (Data cfg);
     ReconnectDelay := Lease_ReconnectDelay (Lease cfg);
     DemoteDelay := Lease_DemoteDelay (Lease cfg);
     store_Client := Some NewClient;
     store_Leaser := None; Invalidator := None |}.

(** The sample config with another lease type. *)
Definition sample_config_of_type (ty : string) : Config :=
  {| FUSE := FUSE sample_config;
     Data := Data sample_config;
     Lease := {| Lease_Type := ty;
                 Lease_Hostname := Lease_Hostname (Lease sample_config);
                 Lease_AdvertiseURL := Lease_AdvertiseURL (Lease sample_config);
                 Lease_Candidate := Lease_Candidate (Lease sample_config);
                 Lease_Promote := Lease_Promote (Lease sample_config);
                 Lease_ReconnectDelay := Lease_ReconnectDelay (Lease sample_config);
                 Lease_DemoteDelay := Lease_DemoteDelay (Lease sample_config);
                 Lease_Consul := Lease_Consul (Lease sample_config) |};
     HTTP := HTTP sample_config;
     Proxy := Proxy sample_config;
     Exec := Exec sample_config;
     SkipSync := SkipSync sample_config;
     StrictVerify := StrictVerify sample_config |}.

(** The steps of [initConsul] that reach outside: asking the operating
    system for the hostname and opening the consul leaser. *)
Definition consul_step (e : event) : bool :=
  match e with
  | EvHostname | EvConsulOpen _ => true
  | _ => false
  end.

(** The consul leaser of the sample config on the sample environment. *)
Definition sample_leaser : consul_Leaser :=
  {| leaser_URL := "http://consul:8500"; leaser_Key := "litefs/primary";
     leaser_Hostname := "node1"; leaser_AdvertiseURL := "http://node1:20202";
     TTL := 10 * Second; LockDelay := 5 * Second |}.

(** ** The course of [Run]

    The place of a step in the course of [Run]: the version line, the HTTP
    server told to listen, the proxy server told to listen, the hostname
    asked, the consul leaser opened, the store opened, the store published,
    the file system mounted, the HTTP server serving, the wait for the
    cluster, the question who is primary, the handoff request, the tickers
    and the polls, the proxy server serving, the subprocesses.  A log line
    has no place of its own. *)
Definition milestone (e : event) : option nat :=
  match e with
  | EvLog _ _ => None
  | EvPrintln _ => Some 0
  | EvHTTPListen _ => Some 1
  | EvProxyListen _ => Some 2
  | EvHostname => Some 3
  | EvConsulOpen _ => Some 4
  | EvStoreOpen _ => Some 5
  | EvExpvarPublish _ => Some 6
  | EvMount _ => Some 7
  | EvHTTPServe => Some 8
  | EvRecvCtxDone | EvRecvReady => Some 9
  | EvPrimaryInfo => Some 10
  | EvHandoff _ _ => Some 11
  | EvNewTicker _ | EvTickerStop _ | EvRecvTimeout | EvRecvTick | EvIsPrimary _ => Some 12
  | EvProxyServe => Some 13
  | EvCmdRun _ _ | EvCmdStart _ _ | EvGoWait => Some 14
  end%nat.

Definition milestones (t : list event) : list nat :=
  flat_map (fun e => match milestone e with Some n => [n] | None => [] end) t.

(** No number of the list is followed, at any distance, by a smaller one. *)
Fixpoint ascending (l : list nat) : bool :=
  match l with
  | [] => true
  | a :: rest => forallb (fun b => (a <=? b)%nat) rest && ascending rest
  end.

(** The steps of [t] are in the order of their places, which lie between
    [lo] and [hi]. *)
Definition in_order (lo hi : nat) (t : list event) : Prop :=
  ascending (milestones t) = true /\
  Forall (fun n => (lo <= n <= hi)%nat) (milestones t).

Definition stretch {A} (lo hi : nat) (m : M A) : Prop :=
  forall s, in_order lo hi (trace (m s)).

(** The file system of a config as [initFileSystem] builds it. *)
Definition configured_fs (cfg : Config) : FileSystem :=
  {| fs_Path := FUSE_Dir (FUSE cfg);
     AllowOther := FUSE_AllowOther (FUSE cfg);
     fs_Debug := FUSE_Debug (FUSE cfg) |}.

(** The command [c] holds what [Run] builds from the config of the command
    [c0] it was called on: a leaser, the file system and the HTTP server of
    the config, the store of the config with that leaser and with that file
    system as its invalidator, and the proxy server of the config when the
    config has a proxy target; what [Run] does not assign is as in [c0]. *)
Definition wired (c0 c : MountCommand) : Prop :=
  exists l,
    c_Leaser c = Some l /\
    c_FileSystem c = Some (configured_fs (c_Config c0)) /\
    c_HTTPServer c = Some {| server_Addr := HTTP_Addr (HTTP (c_Config c0)) |} /\
    c_Store c = Some (with_Invalidator (configured_fs (c_Config c0))
                        (with_Leaser (Some l) (configured_store (c_Config c0)))) /\
    c_ProxyServer c = (if Proxy_Target (Proxy (c_Config c0)) =? ""
                       then c_ProxyServer c0
                       else Some (configured_proxy (c_Config c0))) /\
    c_Config c = c_Config c0 /\
    c_AdvertiseURLFn c = c_AdvertiseURLFn c0.

(** [wired], of a run that returned nil. *)
Definition returns_wired (c0 : MountCommand) (r : ran unit) : Prop :=
  result r = Returned tt -> wired c0 (self (final r)).

(** * Properties *)

(** ** Validation *)

Lemma IsValidLeaseType_spec (s : string) :
  IsValidLeaseType s = true <-> s = "consul" \/ s = "static".
Proof.
  unfold IsValidLeaseType, LeaseTypeConsul, LeaseTypeStatic.
  destruct (String.eqb_spec s "consul") as [-> | Hc]; cbn; [tauto |].
  destruct (String.eqb_spec s "static") as [-> | Hs]; cbn; [tauto |].
  split; [discriminate | intros [H | H]; contradiction].
Qed.

Lemma Validate_None_iff (c : MountCommand) :
  Validate c = None <-> ~ invalid_config (c_Config c).
Proof.
  unfold Validate, invalid_config.
  destruct (String.eqb_spec (FUSE_Dir (FUSE (c_Config c))) "") as [Hf | Hf];
    [split; [discriminate | tauto] |].
  destruct (String.eqb_spec (Data_Dir (Data (c_Config c))) "") as [Hd | Hd];
    [split; [discriminate | tauto] |].
  destruct (String.eqb_spec (FUSE_Dir (FUSE (c_Config c)))
                            (Data_Dir (Data (c_Config c)))) as [He | He];
    [split; [discriminate | tauto] |].
  pose proof (IsValidLeaseType_spec (Lease_Type (Lease (c_Config c)))) as Hv.
  destruct (IsValidLeaseType (Lease_Type (Lease (c_Config c)))); cbn.
  - assert (Lease_Type (Lease (c_Config c)) = "consul" \/
            Lease_Type (Lease (c_Config c)) = "static") as Hok by (apply Hv; reflexivity).
    split; [| reflexivity].
    intros _ [H | [H | [H | [H1 H2]]]]; try contradiction.
    destruct Hok; contradiction.
  - split; [discriminate |].
    intros Hn. exfalso. apply Hn. right; right; right.
    split; intros Heq; assert (false = true) by (apply Hv; tauto); discriminate.
Qed.

(** C5.  [Validate] returns an error exactly when the FUSE directory is
    empty, the data directory is empty, the two directories are the same
    path, or the lease type is neither ['consul'] nor ['static']; otherwise
    it returns nil.  On such an error the startup path stops with that error
    before [Run] does anything. *)
Theorem Validate_error_iff_invalid (c : MountCommand) :
  ((exists err, Validate c = Some err) <-> invalid_config (c_Config c)) /\
  (~ invalid_config (c_Config c) -> Validate c = None) /\
  (forall env s err, self s = c -> Validate c = Some err ->
                     startup env s = mkRan (Failed err) s []).
Proof.
  pose proof (Validate_None_iff c) as Hn.
  split; [| split].
  - split.
    + intros [err Herr].
      destruct (String.eqb_spec (FUSE_Dir (FUSE (c_Config c))) "") as [Hf | Hf];
        [left; exact Hf |].
      destruct (String.eqb_spec (Data_Dir (Data (c_Config c))) "") as [Hd | Hd];
        [right; left; exact Hd |].
      destruct (String.eqb_spec (FUSE_Dir (FUSE (c_Config c)))
                                (Data_Dir (Data (c_Config c)))) as [He | He];
        [right; right; left; exact He |].
      right; right; right.
      pose proof (IsValidLeaseType_spec (Lease_Type (Lease (c_Config c)))) as Hv.
      split; intros Heq.
      * assert (Validate c = None) as Hnone.
        { apply Hn. unfold invalid_config. rewrite Heq.
          intros [H | [H | [H | [H1 H2]]]]; contradiction. }
        congruence.
      * assert (Validate c = None) as Hnone.
        { apply Hn. unfold invalid_config. rewrite Heq.
          intros [H | [H | [H | [H1 H2]]]]; contradiction. }
        congruence.
    + intros Hinv. destruct (Validate c) as [err |] eqn:Hv; [eauto |].
      exfalso. exact (proj1 Hn eq_refl Hinv).
  - apply Hn.
  - intros env s err Hs Hv. unfold startup, bind, get_self. cbn.
    rewrite Hs, Hv. reflexivity.
Qed.

(** ** Promotion *)

Lemma promote_wait_primary (pre rest : list happening) (s : state) :
  undecided pre ->
  promote_wait (pre ++ TickerFired true :: rest) s
  = mkRan (Returned tt) s (poll_events pre ++ [EvRecvTick; EvIsPrimary true]).
Proof.
  induction 1 as [| h pre [Ht Hp] _ IH]; [reflexivity |].
  destruct h as [| [|] |]; try congruence.
  - exact IH.
  - cbn [app promote_wait]. unfold bind, emit. cbn. rewrite IH. reflexivity.
Qed.

Lemma promote_wait_timeout (pre rest : list happening) (s : state) :
  undecided pre ->
  promote_wait (pre ++ TimeoutFired :: rest) s
  = mkRan (Failed (errorString "timed out waiting for promotion")) s
          (poll_events pre ++ [EvRecvTimeout]).
Proof.
  induction 1 as [| h pre [Ht Hp] _ IH]; [reflexivity |].
  destruct h as [| [|] |]; try congruence.
  - exact IH.
  - cbn [app promote_wait]. unfold bind, emit. cbn. rewrite IH. reflexivity.
Qed.

(** The wait of [promote] does not look at the context: taking the
    cancellations out of the timeline changes nothing. *)
Lemma promote_wait_ignores_cancel (timeline : list happening) (s : state) :
  promote_wait (filter (fun h => negb (is_cancel h)) timeline) s
  = promote_wait timeline s.
Proof.
  induction timeline as [| h timeline IH]; [reflexivity |].
  destruct h as [| b |]; cbn [filter is_cancel negb promote_wait].
  - exact IH.
  - unfold bind, emit. cbn. destruct b; [reflexivity |]. rewrite IH. reflexivity.
  - reflexivity.
Qed.

(** C2.  When the store reports that the node is primary, [promote] returns
    nil at once: it asks the store, logs, and sends no handoff request. *)
Theorem promote_noop_when_primary (env : Env) (s : state) (st : Store) :
  c_Store (self s) = Some st ->
  fst (store_PrimaryInfo env) = true ->
  promote env s
  = mkRan (Returned tt) s
          [EvPrimaryInfo; EvLog "node is already primary, skipping promotion" []]
  /\ forall url id, ~ In (EvHandoff url id) (trace (promote env s)).
Proof.
  intros Hst Hp.
  assert (promote env s
          = mkRan (Returned tt) s
                  [EvPrimaryInfo; EvLog "node is already primary, skipping promotion" []])
    as Heq.
  { unfold promote, the_Store, bind, get_self. cbn. rewrite Hst. cbn.
    rewrite Hp. reflexivity. }
  split; [exact Heq |].
  intros url id Hin. rewrite Heq in Hin. cbn in Hin.
  destruct Hin as [H | [H | []]]; discriminate.
Qed.

(** C3.  After a handoff request that succeeded, [promote] makes a ticker of
    1 ms (1000000 ns) and a timeout ticker of 10 s (10000000000 ns), and asks
    [IsPrimary] once for each tick of the first.  It returns nil at the first
    tick at which the store answers true, when the timeout has not delivered
    before; it returns the error "timed out waiting for promotion" when the
    timeout delivers and the store has not answered true before. *)
Theorem promote_polls_until_primary_or_timeout (env : Env) (s : state) (st : Store) :
  c_Store (self s) = Some st ->
  fst (store_PrimaryInfo env) = false ->
  client_Handoff env (snd (store_PrimaryInfo env)) (store_ID env) = None ->
  (1 * Millisecond = 1000000)%Z /\ (10 * Second = 10000000000)%Z /\
  (forall pre rest,
      promote_timeline env = (pre ++ TickerFired true :: rest)%list ->
      undecided pre ->
      promote env s
      = mkRan (Returned tt) s
          ([EvPrimaryInfo; EvHandoff (snd (store_PrimaryInfo env)) (store_ID env);
            EvNewTicker (1 * Millisecond); EvNewTicker (10 * Second)]
           ++ poll_events pre
           ++ [EvRecvTick; EvIsPrimary true;
               EvTickerStop (10 * Second); EvTickerStop (1 * Millisecond)])%list) /\
  (forall pre rest,
      promote_timeline env = (pre ++ TimeoutFired :: rest)%list ->
      undecided pre ->
      promote env s
      = mkRan (Failed (errorString "timed out waiting for promotion")) s
          ([EvPrimaryInfo; EvHandoff (snd (store_PrimaryInfo env)) (store_ID env);
            EvNewTicker (1 * Millisecond); EvNewTicker (10 * Second)]
           ++ poll_events pre
           ++ [EvRecvTimeout;
               EvTickerStop (10 * Second); EvTickerStop (1 * Millisecond)])%list).
Proof.
  intros Hst Hp Hh.
  split; [reflexivity |]. split; [reflexivity |].
  split; intros pre rest Htl Hpre.
  - unfold promote, the_Store, bind, get_self, defer, wrapping. cbn.
    rewrite Hst. cbn. rewrite Hp, Hh, Htl. cbn.
    rewrite (promote_wait_primary pre rest s Hpre). cbn.
    rewrite <- !app_assoc. reflexivity.
  - unfold promote, the_Store, bind, get_self, defer, wrapping. cbn.
    rewrite Hst. cbn. rewrite Hp, Hh, Htl. cbn.
    rewrite (promote_wait_timeout pre rest s Hpre). cbn.
    rewrite <- !app_assoc. reflexivity.
Qed.

Lemma promote_polls_witness :
  promote (sample_env_at (false, "http://primary:20202")
                         [TickerFired false; CtxCanceled; TickerFired true] None)
          (final (initStore (fresh sample_config)))
  = mkRan (Returned tt) (final (initStore (fresh sample_config)))
      [EvPrimaryInfo; EvHandoff "http://primary:20202" 7;
       EvNewTicker 1000000; EvNewTicker 10000000000;
       EvRecvTick; EvIsPrimary false; EvRecvTick; EvIsPrimary true;
       EvTickerStop 10000000000; EvTickerStop 1000000].
Proof.
  refine (proj1 (proj2 (proj2
    (promote_polls_until_primary_or_timeout
       (sample_env_at (false, "http://primary:20202")
                      [TickerFired false; CtxCanceled; TickerFired true] None)
       (final (initStore (fresh sample_config)))
       _ eq_refl eq_refl eq_refl)))
    [TickerFired false; CtxCanceled] [] eq_refl _).
  repeat constructor; discriminate.
Defined.

Lemma promote_noop_witness :
  promote (sample_env_at (true, "http://node1:20202") [] None)
          (final (initStore (fresh sample_config)))
  = mkRan (Returned tt) (final (initStore (fresh sample_config)))
          [EvPrimaryInfo; EvLog "node is already primary, skipping promotion" []].
Proof.
  exact (proj1 (promote_noop_when_primary
                  (sample_env_at (true, "http://node1:20202") [] None)
                  (final (initStore (fresh sample_config)))
                  _ eq_refl eq_refl)).
Defined.

(** C4.  With the context canceled right after the handoff request, the
    store never primary and the timeout delivering, [promote] returns the
    error "timed out waiting for promotion", which is not the cause of the
    cancellation. *)
Theorem promote_canceled_times_out :
  let env := sample_env_at (false, "http://primary:20202")
                           [CtxCanceled; TickerFired false; TimeoutFired] None in
  let s := final (initStore (fresh sample_config)) in
  result (promote env s) = Failed (errorString "timed out waiting for promotion")
  /\ result (promote env s) <> Failed (ctx_Cause env).
Proof.
  cbv zeta. split; [vm_compute; reflexivity | vm_compute; discriminate].
Qed.

(** ** Running a method by cases *)

Ltac unfold_monad :=
  unfold the_Store, the_HTTPServer, wrapping, defer, check, log, modify,
    get_self, emit, fail, panic, blocked, bind, ret in *.

Ltac break_goal :=
  match goal with
  | |- context [match ?x with _ => _ end] =>
      lazymatch x with
      | context [match _ with _ => _ end] => fail
      | _ => destruct x eqn:?
      end
  end.

Ltac break_hyp :=
  match goal with
  | H : context [match ?x with _ => _ end] |- _ =>
      lazymatch x with
      | context [match _ with _ => _ end] => fail
      | _ => destruct x eqn:?
      end
  end.

Ltac by_cases := cbn in *; repeat (first [break_hyp | break_goal]; cbn in *).

(** ** The consul leaser *)

Ltac bool_facts :=
  repeat match goal with
  | H : (_ && _)%bool = true |- _ => apply andb_true_iff in H; destruct H
  | H : (_ && _)%bool = false |- _ => apply andb_false_iff in H
  | H : negb _ = true |- _ => apply negb_true_iff in H
  | H : negb _ = false |- _ => apply negb_false_iff in H
  | H : (_ =? _)%string = true |- _ => apply String.eqb_eq in H
  | H : (_ =? _)%string = false |- _ => apply String.eqb_neq in H
  | H : (_ >? _)%Z = true |- _ => rewrite Z.gtb_ltb in H; apply Z.ltb_lt in H
  | H : (_ >? _)%Z = false |- _ => rewrite Z.gtb_ltb in H; apply Z.ltb_ge in H
  end.

(** C6.  Without a test injection and with the hostname resolved to [h]:
    when the configured advertise URL is empty and [h] is not, the leaser is
    made with the advertise URL "http://" + h + ":" + port of the HTTP
    server, which is not empty; when the configured advertise URL is not
    empty, the leaser is made with it, unchanged.  One leaser is made. *)
Theorem initConsul_advertise_url (env : Env) (s : state) (h : string) :
  c_AdvertiseURLFn (self s) = None ->
  resolved_hostname env (c_Config (self s)) = inl h ->
  (Lease_AdvertiseURL (Lease (c_Config (self s))) = "" -> h <> "" ->
   c_HTTPServer (self s) <> None ->
   exists l, In (EvConsulOpen l) (trace (initConsul env s)) /\
             leaser_Hostname l = h /\
             leaser_AdvertiseURL l = "http://" ++ h ++ ":" ++ itoa (http_Port env) /\
             leaser_AdvertiseURL l <> "") /\
  (Lease_AdvertiseURL (Lease (c_Config (self s))) <> "" ->
   exists l, In (EvConsulOpen l) (trace (initConsul env s)) /\
             leaser_Hostname l = h /\
             leaser_AdvertiseURL l = Lease_AdvertiseURL (Lease (c_Config (self s)))) /\
  (forall l l', In (EvConsulOpen l) (trace (initConsul env s)) ->
                In (EvConsulOpen l') (trace (initConsul env s)) -> l = l').
Proof.
  intros Hfn Hh.
  unfold resolved_hostname in Hh.
  unfold initConsul, consul_NewLeaser, set_TTL, set_LockDelay. unfold_monad.
  rewrite Hfn.
  split; [| split].
  - intros Hadv Hne Hsrv. rewrite Hadv.
    by_cases; bool_facts; try congruence;
      match goal with H : inl _ = inl _ |- _ => injection H as <- end;
      (eexists; split; [cbn; eauto |]; cbn; repeat split; discriminate).
  - intros Hadv.
    by_cases; bool_facts; try congruence;
      match goal with H : inl _ = inl _ |- _ => injection H as <- end;
      (eexists; split; [cbn; eauto |]; cbn; repeat split).
  - intros l l'.
    by_cases; intros; bool_facts;
      repeat match goal with
             | H : _ \/ _ |- _ => destruct H
             | H : False |- _ => destruct H
             end; congruence.
Qed.

Lemma initConsul_advertise_url_witness :
  exists l, In (EvConsulOpen l)
               (trace (initConsul sample_env
                         (final (initHTTPServer sample_env (fresh sample_config))))) /\
            leaser_Hostname l = "node1" /\
            leaser_AdvertiseURL l = "http://node1:20202" /\
            leaser_AdvertiseURL l <> "".
Proof.
  refine (proj1 (initConsul_advertise_url sample_env
                   (final (initHTTPServer sample_env (fresh sample_config)))
                   "node1" eq_refl eq_refl) eq_refl _ _); cbn; discriminate.
Defined.

(** C8.  The leaser [initConsul] opens has the configured TTL when that is
    strictly positive and the default TTL of the backend when it is zero or
    negative, and likewise for LockDelay; it is the leaser the command keeps
    when [initConsul] returns nil. *)
Theorem initConsul_ttl_lock_delay (env : Env) (s : state) (l : consul_Leaser) :
  In (EvConsulOpen l) (trace (initConsul env s)) ->
  let cfg := Lease_Consul (Lease (c_Config (self s))) in
  ((0 < Consul_TTL cfg)%Z -> TTL l = Consul_TTL cfg) /\
  ((Consul_TTL cfg <= 0)%Z -> TTL l = consul_DefaultTTL env) /\
  ((0 < Consul_LockDelay cfg)%Z -> LockDelay l = Consul_LockDelay cfg) /\
  ((Consul_LockDelay cfg <= 0)%Z -> LockDelay l = consul_DefaultLockDelay env) /\
  (result (initConsul env s) = Returned tt ->
   c_Leaser (self (final (initConsul env s))) = Some (ConsulLeaser l)).
Proof.
  intros Hin cfg. subst cfg.
  unfold initConsul, consul_NewLeaser, set_TTL, set_LockDelay in *. unfold_monad.
  by_cases; bool_facts;
    repeat match goal with
           | H : _ \/ _ |- _ => destruct H
           | H : False |- _ => destruct H
           end;
    try discriminate;
    match goal with H : EvConsulOpen _ = EvConsulOpen _ |- _ => injection H as <- end;
    cbn; repeat split; intros; try lia; try discriminate; reflexivity.
Qed.

Lemma initConsul_ttl_lock_delay_witness :
  TTL {| leaser_URL := "http://consul:8500"; leaser_Key := "litefs/primary";
         leaser_Hostname := "node1"; leaser_AdvertiseURL := "http://node1:20202";
         TTL := 10 * Second; LockDelay := 5 * Second |} = consul_DefaultTTL sample_env.
Proof.
  refine (proj1 (proj2 (initConsul_ttl_lock_delay sample_env
                   (final (initHTTPServer sample_env (fresh sample_config)))
                   _ _)) _).
  - cbn. left. reflexivity.
  - cbn. lia.
Defined.

(** ** Publishing the store metric *)

(** One call of [openStore]: it publishes when [expvarOnce] has not run
    yet, the store is there and [Store.Open] succeeds, and not otherwise;
    [expvarOnce] has run afterwards exactly when it had run before or the
    call published; a store that is there stays there. *)
Lemma openStore_step (env : Env) (s : state) :
  publishes (openStore env s)
  = (if expvarOnce s then 0
     else match c_Store (self s), store_Open env with
          | Some _, None => 1
          | _, _ => 0
          end)%nat
  /\ expvarOnce (final (openStore env s))
     = (expvarOnce s || Nat.eqb (publishes (openStore env s)) 1)%bool
  /\ (c_Store (self s) <> None -> c_Store (self (final (openStore env s))) <> None).
Proof.
  unfold publishes, openStore, expvarOnce_Do. unfold_monad.
  by_cases; repeat split; try reflexivity; try congruence;
    rewrite ?orb_false_r, ?orb_true_r; auto.
Qed.

Lemma openStore_calls_done (envs : list Env) (s : state) :
  expvarOnce s = true ->
  map publishes (openStore_calls envs s) = repeat O (length envs).
Proof.
  revert s. induction envs as [| env envs IH]; intros s Hs; [reflexivity |].
  destruct (openStore_step env s) as (Hp & Hf & _).
  rewrite Hs in Hp, Hf. cbn [openStore_calls map length repeat].
  rewrite Hp. f_equal. apply IH. exact Hf.
Qed.

Lemma openStore_calls_at_most_once (envs : list Env) (s : state) :
  (list_sum (map publishes (openStore_calls envs s)) <= 1)%nat.
Proof.
  revert s. induction envs as [| env envs IH]; intros s; [cbn; lia |].
  destruct (openStore_step env s) as (Hp & Hf & _).
  cbn [openStore_calls map list_sum].
  destruct (expvarOnce s) eqn:Hs.
  - rewrite Hp. apply IH.
  - destruct (Nat.eqb (publishes (openStore env s)) 1) eqn:He.
    + cbn in Hf. rewrite (openStore_calls_done envs _ Hf).
      apply Nat.eqb_eq in He. rewrite He.
      clear. induction (length envs); cbn in *; lia.
    + assert (publishes (openStore env s) = O) as H0.
      { rewrite Hp in *. destruct (c_Store (self s)); [| reflexivity].
        destruct (store_Open env); [reflexivity | discriminate]. }
      rewrite H0. apply IH.
Qed.

(** C9, as it stands, fails: when [Store.Open] fails in the first call and
    succeeds in the second, the first call publishes nothing and the second
    one publishes. *)
Lemma openStore_second_call_publishes :
  map publishes
      (openStore_calls
         [sample_env_at (false, "") [] (Some (errorString "cannot open store")); sample_env]
         (final (initStore (fresh sample_config))))
  = [O; 1%nat]
  /\ ~ publishes_on_first_call_only.
Proof.
  split; [vm_compute; reflexivity |].
  intros H.
  assert (expvarOnce (final (initStore (fresh sample_config))) = false) as Hs
    by reflexivity.
  assert (c_Store (self (final (initStore (fresh sample_config)))) <> None) as Hst
    by (cbn; discriminate).
  destruct (H [sample_env_at (false, "") [] (Some (errorString "cannot open store"));
               sample_env]
              _ _ _ Hs Hst eq_refl) as [H1 _].
  vm_compute in H1. discriminate.
Qed.

(** C9, amended.  Over any series of calls of [openStore] the store metric
    is published at most once.  Starting with [expvarOnce] not yet run and a
    store in place, it is published by the first call whose [Store.Open]
    succeeds and by no other call, before or after. *)
Theorem openStore_publishes_once (envs : list Env) (s : state) :
  (list_sum (map publishes (openStore_calls envs s)) <= 1)%nat /\
  (forall pre env post,
      expvarOnce s = false ->
      c_Store (self s) <> None ->
      envs = (pre ++ env :: post)%list ->
      Forall (fun e => store_Open e <> None) pre ->
      store_Open env = None ->
      map publishes (openStore_calls envs s)
      = (repeat O (length pre) ++ 1%nat :: repeat O (length post))%list).
Proof.
  split; [apply openStore_calls_at_most_once |].
  intros pre env post Hs Hst -> Hpre Hopen.
  revert s Hs Hst. induction Hpre as [| e pre He _ IH]; intros s Hs Hst.
  - destruct (openStore_step env s) as (Hp & Hf & _).
    rewrite Hs, Hopen in Hp. destruct (c_Store (self s)); [| congruence].
    cbn [app openStore_calls map length repeat]. rewrite Hp. f_equal.
    apply openStore_calls_done. rewrite Hf, Hp. rewrite orb_true_r. reflexivity.
  - destruct (openStore_step e s) as (Hp & Hf & Hk).
    assert (publishes (openStore e s) = O) as H0.
    { rewrite Hp, Hs. destruct (c_Store (self s)); [| reflexivity].
      destruct (store_Open e); [reflexivity | congruence]. }
    cbn [app openStore_calls map length repeat]. rewrite H0. f_equal.
    apply IH; [| apply Hk; exact Hst].
    rewrite Hf, Hs, H0. reflexivity.
Qed.

Lemma openStore_publishes_once_witness :
  map publishes
      (openStore_calls
         [sample_env_at (false, "") [] (Some (errorString "cannot open store"));
          sample_env; sample_env]
         (final (initStore (fresh sample_config))))
  = [O; 1%nat; O].
Proof.
  refine (proj2 (openStore_publishes_once
                   [sample_env_at (false, "") [] (Some (errorString "cannot open store"));
                    sample_env; sample_env]
                   (final (initStore (fresh sample_config))))
                [sample_env_at (false, "") [] (Some (errorString "cannot open store"))]
                sample_env [sample_env] eq_refl _ eq_refl _ eq_refl).
  - cbn. discriminate.
  - repeat constructor. cbn. discriminate.
Defined.

(** ** Sequencing *)

Lemma seq_rule {A B} (P : event -> Prop) (Q : ran B -> Prop)
    (m : M A) (k : A -> M B) (s : state) :
  absorbs P Q ->
  Forall P (trace (m s)) ->
  (forall a, result (m s) = Returned a -> Q (k a (final (m s)))) ->
  Q (bind m k s).
Proof.
  intros [Hfront Hexit] Ht Hk. unfold bind.
  destruct (m s) as [o s1 t1]. cbn in *.
  destruct o as [a | err | msg |].
  - specialize (Hk a eq_refl). destruct (k a s1) as [o2 s2 t2].
    apply Hfront; assumption.
  - apply Hexit; assumption.
  - apply Hexit; assumption.
  - apply Hexit; assumption.
Qed.

Lemma absorbs_hoare {B} (P : event -> Prop) (post : B -> state -> Prop) :
  absorbs P (fun r : ran B =>
               Forall P (trace r) /\
               forall b, result r = Returned b -> post b (final r)).
Proof.
  split.
  - intros o s t0 t Ht0 [Ht Hpost]. cbn in *. split; [| exact Hpost].
    apply Forall_app. split; assumption.
  - intros s t Ht. repeat split; cbn; try assumption; discriminate.
Qed.

Lemma hoare_bind {A B} (pre : state -> Prop) (P : event -> Prop)
    (mid : A -> state -> Prop) (post : B -> state -> Prop)
    (m : M A) (k : A -> M B) :
  hoare pre m P mid ->
  (forall a, hoare (mid a) (k a) P post) ->
  hoare pre (bind m k) P post.
Proof.
  intros Hm Hk s Hs. destruct (Hm s Hs) as [Ht Hmid].
  apply (seq_rule P _ m k s (absorbs_hoare P post) Ht).
  intros a Ha. apply (Hk a). apply Hmid. exact Ha.
Qed.

Lemma hoare_wrapping {A} (pre : state -> Prop) (P : event -> Prop)
    (post : A -> state -> Prop) (msg : string) (m : M A) :
  hoare pre m P post -> hoare pre (wrapping msg m) P post.
Proof.
  intros Hm s Hs. destruct (Hm s Hs) as [Ht Hpost]. unfold wrapping.
  destruct (m s) as [[a | err | p |] s1 t1]; cbn in *; split; try assumption;
    discriminate.
Qed.

(** ** The stretches of [Run] *)

Ltac open_ready :=
  match goal with
  | H : ready_state _ _ |- _ =>
      let Hc := fresh "Hcfg" in
      let st := fresh "st" in
      let Hst := fresh "Hst" in
      let Hca := fresh "Hcand" in
      let Hsrv := fresh "Hsrv" in
      destruct H as (Hc & (st & Hst & Hca) & Hsrv)
  end.

Ltac close_ready :=
  unfold ready_state; unfold Candidate in *; cbn;
  repeat split; try assumption; try congruence;
  try (eexists; split;
       [first [eassumption | reflexivity] | first [assumption | cbn; congruence]]).

Ltac all_events := repeat (apply Forall_cons; [reflexivity |]); apply Forall_nil.

Lemma compilePassthroughs_run (env : Env) (exprs acc : list string) (s : state) :
  exists o, compilePassthroughs env exprs acc s = mkRan o s [].
Proof.
  revert acc. induction exprs as [| e exprs IH]; intros acc; cbn.
  - eexists. reflexivity.
  - unfold_monad. destruct (http_CompileMatch env e).
    + eexists. reflexivity.
    + apply IH.
Qed.

Lemma initStore_hoare (cfg : Config) :
  hoare (fun s => c_Config (self s) = cfg) initStore setupP
        (fun _ s => c_Config (self s) = cfg /\
                    exists st, c_Store (self s) = Some st /\
                               Candidate st = Lease_Candidate (Lease cfg)).
Proof.
  intros s Hs. unfold initStore. unfold_monad. cbn. split; [all_events |].
  intros _ _. split; [exact Hs |]. eexists. split; [reflexivity |].
  cbn. congruence.
Qed.

Lemma initHTTPServer_hoare (env : Env) (cfg : Config) :
  hoare (fun s => c_Config (self s) = cfg /\
                  exists st, c_Store (self s) = Some st /\
                             Candidate st = Lease_Candidate (Lease cfg))
        (initHTTPServer env) setupP (fun _ => ready_state cfg).
Proof.
  intros s (Hcfg & st & Hst & Hcand). unfold initHTTPServer. unfold_monad.
  by_cases; (split; [all_events |]); intros a Ha; try discriminate.
  close_ready.
Qed.

Lemma initProxyServer_hoare (env : Env) (cfg : Config) :
  hoare (ready_state cfg) (initProxyServer env) setupP (fun _ => ready_state cfg).
Proof.
  intros s Hs. unfold initProxyServer. unfold_monad. cbn.
  destruct (Proxy_Target (Proxy (c_Config (self s))) =? ""); cbn.
  - split; [all_events | intros; exact Hs].
  - destruct (compilePassthroughs_run env
                (Proxy_Passthrough (Proxy (c_Config (self s)))) [] s) as [o ->].
    open_ready.
    destruct o; cbn; try (split; [all_events | discriminate]).
    destruct (proxy_Listen env); cbn; (split; [all_events |]);
      intros b Hb; try discriminate.
    close_ready.
Qed.

Lemma initConsul_hoare (env : Env) (cfg : Config) :
  hoare (ready_state cfg) (initConsul env) setupP (fun _ => ready_state cfg).
Proof.
  intros s Hs. open_ready.
  unfold initConsul, consul_NewLeaser, set_TTL, set_LockDelay. unfold_monad.
  by_cases; (split; [all_events |]); intros b Hb; try discriminate;
    close_ready.
Qed.

Lemma openStore_hoare (env : Env) (cfg : Config) :
  hoare (ready_state cfg) (openStore env) setupP (fun _ => ready_state cfg).
Proof.
  intros s Hs. open_ready.
  unfold openStore, expvarOnce_Do. unfold_monad.
  by_cases; (split; [all_events |]); intros b Hb; try discriminate;
    close_ready.
Qed.

Lemma initFileSystem_hoare (env : Env) (cfg : Config) :
  hoare (ready_state cfg) (initFileSystem env) setupP
        (fun _ s => ready_state cfg s /\ c_FileSystem (self s) <> None).
Proof.
  intros s Hs. open_ready.
  unfold initFileSystem. unfold_monad.
  by_cases; (split; [all_events |]); intros b Hb; try discriminate.
  split; [| cbn; discriminate].
  close_ready.
Qed.

Lemma hoare_emit (pre : state -> Prop) (P : event -> Prop) (e : event) :
  P e -> hoare pre (emit e) P (fun _ s => pre s).
Proof.
  intros He s Hs. cbn. split; [repeat constructor; exact He | intros; exact Hs].
Qed.

Lemma hoare_get_self (pre : state -> Prop) (P : event -> Prop) :
  hoare pre get_self P (fun c s => pre s /\ c = self s).
Proof.
  intros s Hs. cbn. split; [constructor |].
  intros a Ha. injection Ha as <-. split; [exact Hs | reflexivity].
Qed.

Lemma hoare_log (pre : state -> Prop) (format : string) (args : list string) :
  hoare pre (log format args) setupP (fun _ s => pre s).
Proof.
  apply hoare_emit. reflexivity.
Qed.

Lemma hoare_fail {A} (pre : state -> Prop) (P : event -> Prop)
    (post : A -> state -> Prop) (err : error) :
  hoare pre (fail err) P post.
Proof.
  intros s Hs. cbn. split; [constructor | discriminate].
Qed.

Lemma hoare_set_Leaser (cfg : Config) (l : Leaser) :
  hoare (ready_state cfg) (modify (set_Leaser l)) setupP (fun _ => ready_state cfg).
Proof.
  intros s Hs. open_ready. cbn. split; [constructor |]. intros _ _. close_ready.
Qed.

Lemma absorbs_started (env : Env) (cfg : Config) : absorbs setupP (started env cfg).
Proof.
  split.
  - intros o s t0 t Ht0. unfold started. cbn.
    destruct o; try (intros Ht; apply Forall_app; split; assumption).
    intros [Hr (t' & -> & Ht')]. split; [exact Hr |].
    exists (t0 ++ t')%list. split; [apply app_assoc |].
    apply Forall_app. split; assumption.
  - intros s t Ht. unfold started. cbn. repeat split; intros; assumption.
Qed.

Lemma seq_hoare {A B} (P : event -> Prop) (Q : ran B -> Prop)
    (pre : state -> Prop) (mid : A -> state -> Prop)
    (m : M A) (k : A -> M B) (s : state) :
  absorbs P Q ->
  hoare pre m P mid ->
  pre s ->
  (forall a s1, mid a s1 -> Q (k a s1)) ->
  Q (bind m k s).
Proof.
  intros Habs Hm Hs Hk. destruct (Hm s Hs) as [Ht Hmid].
  apply (seq_rule P Q m k s Habs Ht).
  intros a Ha. apply Hk, Hmid, Ha.
Qed.

Ltac step_start tac :=
  eapply (seq_hoare setupP);
  [ apply absorbs_started
  | tac
  | first [eassumption | cbn; eassumption]
  | let a := fresh "a" in
    let s1 := fresh "s" in
    let H := fresh "Hs" in
    intros a s1 H; cbv beta in H ].

Lemma Run_start_spec (env : Env) (cfg : Config) (s : state) :
  c_Config (self s) = cfg -> started env cfg (Run_start env s).
Proof.
  intros Hs. unfold Run_start.
  step_start ltac:(apply (hoare_emit (fun s => c_Config (self s) = cfg)); reflexivity).
  step_start ltac:(apply hoare_wrapping, (initStore_hoare cfg)).
  step_start ltac:(apply hoare_wrapping, (initHTTPServer_hoare env cfg)).
  step_start ltac:(apply hoare_wrapping, (initProxyServer_hoare env cfg)).
  step_start ltac:(apply (hoare_get_self (ready_state cfg))).
  destruct Hs4 as [Hr ->].
  destruct (Lease_Type (Lease (c_Config (self s4))) =? LeaseTypeConsul);
    [| destruct (Lease_Type (Lease (c_Config (self s4))) =? LeaseTypeStatic)].
  1: step_start ltac:(eapply hoare_bind;
                      [ apply (hoare_log (ready_state cfg))
                      | intro; apply hoare_wrapping, (initConsul_hoare env cfg) ]).
  2: step_start ltac:(eapply hoare_bind;
                      [ apply (hoare_log (ready_state cfg))
                      | intro; apply (hoare_set_Leaser cfg) ]).
  3: step_start ltac:(apply (hoare_fail (ready_state cfg) setupP
                               (fun (_ : unit) => ready_state cfg))).
  all: step_start ltac:(apply hoare_wrapping, (openStore_hoare env cfg)).
  all: step_start ltac:(apply hoare_wrapping, (initFileSystem_hoare env cfg)).
  all: match goal with H : ready_state _ _ /\ _ |- _ => destruct H as [Hr2 Hfs2] end.
  all: pose proof Hr2 as Hkeep; destruct Hr2 as (_ & _ & Hsrv2).
  all: unfold started; unfold_monad; cbn.
  all: match goal with
       | |- context [c_FileSystem (self ?s2)] =>
           (destruct (c_FileSystem (self s2)) as [fsys |]; [| congruence]); cbn;
           (destruct (c_HTTPServer (self s2)) as [srv |]; [| congruence]); cbn
       end.
  all: (split; [exact Hkeep |]).
  all: eexists [_]; (split; [reflexivity | all_events]).
Qed.

(** ** The wait for the cluster *)

Lemma Run_sync_skip (env : Env) (s : state) :
  SkipSync (c_Config (self s)) = true ->
  Run_sync env s
  = mkRan (Returned tt) s [EvLog "skipping cluster sync, starting immediately" []].
Proof.
  intros H. unfold Run_sync. unfold_monad. cbn. rewrite H. reflexivity.
Qed.

(** With [SkipSync] off, [Run_sync] logs and then waits: it stays blocked
    when neither channel ever delivers, it returns the cause when the
    context is done, and whatever else it does comes after the store was
    ready. *)
Lemma Run_sync_wait (env : Env) (s : state) :
  SkipSync (c_Config (self s)) = false ->
  match ready_wait env with
  | None =>
      Run_sync env s = mkRan Blocked s [EvLog "waiting to connect to cluster" []]
  | Some CtxDone =>
      Run_sync env s
      = mkRan (Failed (ctx_Cause env)) s
              [EvLog "waiting to connect to cluster" []; EvRecvCtxDone]
  | Some StoreReady =>
      exists t, trace (Run_sync env s)
                = EvLog "waiting to connect to cluster" [] :: EvRecvReady :: t
  end.
Proof.
  intros H. unfold Run_sync. unfold_monad. cbn. rewrite H.
  destruct (ready_wait env) as [[|] |]; cbn; try reflexivity.
  by_cases; eexists; reflexivity.
Qed.

(** On a node whose store is not a candidate, [Run_sync] leaves the state as
    it is and does nothing but log and wait. *)
Lemma Run_sync_noncandidate (env : Env) (s : state) (st : Store) :
  c_Store (self s) = Some st ->
  Candidate st = false ->
  final (Run_sync env s) = s /\
  Forall (fun e => sync_event e = true) (trace (Run_sync env s)).
Proof.
  intros Hst Hc. unfold Run_sync, Candidate in *. unfold_monad.
  by_cases; try (exfalso; congruence); split; try reflexivity; all_events.
Qed.

(** ** Subcommands *)

Lemma emits_trace {A} (P : event -> Prop) (m : M A) (s : state) :
  emits P m -> Forall P (trace (m s)).
Proof.
  intros H. exact (proj1 (H s I)).
Qed.

Lemma emits_bind {A B} (P : event -> Prop) (m : M A) (k : A -> M B) :
  emits P m -> (forall a, emits P (k a)) -> emits P (bind m k).
Proof.
  intros Hm Hk. eapply hoare_bind; [exact Hm | exact Hk].
Qed.

Lemma emits_by_trace {A} (P : event -> Prop) (m : M A) :
  (forall s, Forall P (trace (m s))) -> emits P m.
Proof.
  intros H s _. split; [apply H | trivial].
Qed.

Lemma execSyncCmd_emits (env : Env) (name : string) (args : list string) :
  emits serveP (execSyncCmd env name args).
Proof.
  apply emits_by_trace. intros s. unfold execSyncCmd. unfold_monad.
  by_cases; all_events.
Qed.

Lemma execBackgroundCmd_emits (env : Env) (name : string) (args : list string) :
  emits serveP (execBackgroundCmd env name args).
Proof.
  apply emits_by_trace. intros s. unfold execBackgroundCmd. unfold_monad.
  by_cases; all_events.
Qed.

Lemma execCmds_from_emits (env : Env) (len : Z) (configs : list ExecConfig) :
  forall i, emits serveP (execCmds_from env len i configs).
Proof.
  induction configs as [| config rest IH]; intros i; cbn [execCmds_from].
  - apply emits_by_trace. intros s. constructor.
  - apply emits_bind.
    + apply emits_by_trace. intros s.
      destruct (shellwords_Parse env (Cmd config)); constructor.
    + intros [| name args].
      * apply emits_by_trace. intros s. constructor.
      * apply emits_bind.
        -- apply emits_by_trace. intros s. unfold_monad. by_cases; constructor.
        -- intros [|].
           ++ apply emits_bind; [apply emits_by_trace; intros s; all_events |].
              intros _. apply IH.
           ++ apply emits_bind; [| intros _; apply IH].
              destruct (i <? len - 1)%Z; apply hoare_wrapping.
              ** apply execSyncCmd_emits.
              ** apply execBackgroundCmd_emits.
Qed.

Lemma Run_serve_emits (env : Env) : emits serveP (Run_serve env).
Proof.
  unfold Run_serve. apply emits_bind.
  - apply emits_by_trace. intros s. constructor.
  - intros c. apply emits_bind.
    + apply emits_by_trace. intros s. destruct (c_ProxyServer c); cbn; all_events.
    + intros _. destruct (Z.of_nat (length (Exec (c_Config c))) >? 0)%Z.
      * apply hoare_wrapping. unfold execCmds. apply emits_bind.
        -- apply emits_by_trace. intros s. constructor.
        -- intros c'. apply execCmds_from_emits.
      * apply emits_by_trace. intros s. constructor.
Qed.

(** With a proxy server in place, the first thing [Run_serve] does is to
    let it serve. *)
Lemma Run_serve_proxy_first (env : Env) (s : state) :
  c_ProxyServer (self s) <> None ->
  exists t, trace (Run_serve env s)
            = EvProxyServe :: EvLog "proxy server listening on: %s" [proxy_URL env] :: t.
Proof.
  intros Hp. unfold Run_serve. unfold_monad. cbn.
  destruct (c_ProxyServer (self s)); [| congruence]. cbn.
  destruct (Z.of_nat (length (Exec (c_Config (self s)))) >? 0)%Z.
  - unfold execCmds. unfold_monad. cbn.
    match goal with
    | |- context [execCmds_from ?e ?n ?i ?l ?s0] =>
        destruct (execCmds_from e n i l s0) as [[| | |] s1 t1]
    end; cbn; eexists; reflexivity.
  - eexists. reflexivity.
Qed.

(** ** The readiness barrier *)

Lemma setupP_quietP (e : event) : setupP e -> quietP e.
Proof.
  unfold setupP, quietP. destruct e; cbn; congruence.
Qed.

Lemma quiet_only_after_ready (t : list event) :
  Forall quietP t -> only_after_ready t.
Proof.
  intros Ht before e after -> He.
  apply Forall_app in Ht. destruct Ht as [_ Ht].
  inversion Ht as [| ? ? Hq _]; subst. unfold quietP in Hq. congruence.
Qed.

Lemma ready_only_after_ready (pre post : list event) :
  Forall quietP pre -> only_after_ready (pre ++ EvRecvReady :: post)%list.
Proof.
  induction 1 as [| p pre Hp _ IH]; intros before e after Heq He.
  - destruct before as [| b before]; cbn in Heq; injection Heq as <- _.
    + discriminate.
    + left. reflexivity.
  - destruct before as [| b before]; cbn in Heq; injection Heq as <- Heq.
    + unfold quietP in Hp. congruence.
    + right. exact (IH before e after Heq He).
Qed.

(** C1.  With [SkipSync] off, every proxy-serving or subprocess event of
    [Run] comes after the receive from the store's [ReadyCh]; and when the
    [select] takes the case of the done context, [Run] has started neither
    and, having reached the [select], returns the cause of the
    cancellation. *)
Theorem Run_readiness_barrier (env : Env) (s : state) :
  SkipSync (c_Config (self s)) = false ->
  only_after_ready (trace (Run env s)) /\
  (ready_wait env = Some CtxDone ->
   Forall (fun e => serves_or_spawns e = false) (trace (Run env s)) /\
   (In EvRecvCtxDone (trace (Run env s)) ->
    result (Run env s) = Failed (ctx_Cause env))).
Proof.
  intros Hskip.
  pose proof (Run_start_spec env _ s eq_refl) as Hstart.
  unfold Run, bind. destruct (Run_start env s) as [o1 s1 t1].
  unfold started in Hstart. cbn in Hstart.
  assert (forall t, Forall setupP t -> ~ In EvRecvCtxDone t) as Hno.
  { intros t Ht Hin. rewrite Forall_forall in Ht. specialize (Ht _ Hin). discriminate. }
  destruct o1 as [[] | err | msg |].
  - destruct Hstart as [Hr (t & -> & Ht)].
    assert (Forall quietP (t ++ [EvHTTPServe;
                                 EvLog "http server listening on: %s" [http_URL env]])%list)
      as Hq.
    { apply Forall_app. split.
      - eapply Forall_impl; [exact setupP_quietP | exact Ht].
      - repeat constructor. }
    destruct Hr as (Hcfg & _). rewrite <- Hcfg in Hskip.
    pose proof (Run_sync_wait env s1 Hskip) as Hw.
    destruct (ready_wait env) as [[|] |].
    + rewrite Hw. cbn. split.
      * apply quiet_only_after_ready. apply Forall_app. split; [exact Hq |].
        repeat constructor.
      * intros _. split; [| reflexivity].
        apply Forall_app. split; [exact Hq | repeat constructor].
    + destruct Hw as [t2 Hw]. destruct (Run_sync env s1) as [o2 s2 t2'].
      cbn in Hw. subst t2'. split; [| discriminate].
      assert (forall rest,
                 only_after_ready
                   ((t ++ [EvHTTPServe;
                           EvLog "http server listening on: %s" [http_URL env]]) ++
                    EvLog "waiting to connect to cluster" [] :: EvRecvReady :: rest)%list)
        as Hb.
      { intros rest.
        replace ((t ++ [EvHTTPServe;
                        EvLog "http server listening on: %s" [http_URL env]]) ++
                 EvLog "waiting to connect to cluster" [] :: EvRecvReady :: rest)%list
          with (((t ++ [EvHTTPServe;
                        EvLog "http server listening on: %s" [http_URL env]]) ++
                 [EvLog "waiting to connect to cluster" []]) ++ EvRecvReady :: rest)%list
          by (rewrite <- !app_assoc; reflexivity).
        apply ready_only_after_ready. apply Forall_app. split; [exact Hq |].
        repeat constructor. }
      destruct o2 as [[] | err | msg |];
        [destruct (Run_serve env s2) as [o3 s3 t3] | | |]; cbn; apply Hb.
    + rewrite Hw. cbn. split; [| discriminate].
      apply quiet_only_after_ready. apply Forall_app. split; [exact Hq |].
      repeat constructor.
  - cbn. split.
    + apply quiet_only_after_ready.
      eapply Forall_impl; [exact setupP_quietP | exact Hstart].
    + intros _. split.
      * eapply Forall_impl; [exact setupP_quietP | exact Hstart].
      * intros Hin. exfalso. exact (Hno _ Hstart Hin).
  - cbn. split.
    + apply quiet_only_after_ready.
      eapply Forall_impl; [exact setupP_quietP | exact Hstart].
    + intros _. split.
      * eapply Forall_impl; [exact setupP_quietP | exact Hstart].
      * intros Hin. exfalso. exact (Hno _ Hstart Hin).
  - cbn. split.
    + apply quiet_only_after_ready.
      eapply Forall_impl; [exact setupP_quietP | exact Hstart].
    + intros _. split.
      * eapply Forall_impl; [exact setupP_quietP | exact Hstart].
      * intros Hin. exfalso. exact (Hno _ Hstart Hin).
Qed.

Lemma Run_readiness_barrier_witness :
  only_after_ready (trace (Run sample_env (fresh sample_config))).
Proof.
  exact (proj1 (Run_readiness_barrier sample_env (fresh sample_config) eq_refl)).
Defined.

(** ** Skipping the sync *)

Lemma setupP_no_wait (e : event) : setupP e -> waits_or_promotes e = false.
Proof.
  unfold setupP. destruct e; cbn; congruence.
Qed.

Lemma serveP_no_wait (e : event) : serveP e -> waits_or_promotes e = false.
Proof.
  unfold serveP. destruct e; cbn; congruence.
Qed.

(** C10.  With [SkipSync] on, [Run] never receives from the readiness
    channel or from the context and never runs any step of promotion,
    whatever the promote flag and the candidacy.  Once the HTTP server
    serves, what follows is the log line of the HTTP server, the log line
    that the sync is skipped, and then only the proxy server serving, the
    subcommands and their log lines, the proxy server first when there is
    one. *)
Theorem Run_skip_sync (env : Env) (s : state) :
  SkipSync (c_Config (self s)) = true ->
  Forall (fun e => waits_or_promotes e = false) (trace (Run env s)) /\
  (In EvHTTPServe (trace (Run env s)) ->
   exists before rest,
     trace (Run env s)
     = (before ++ [EvHTTPServe;
                   EvLog "http server listening on: %s" [http_URL env];
                   EvLog "skipping cluster sync, starting immediately" []] ++ rest)%list
     /\ Forall (fun e => setup_event e = true) before
     /\ Forall (fun e => serve_event e = true) rest
     /\ (c_ProxyServer (self (final (Run_start env s))) <> None ->
         exists rest', rest = EvProxyServe :: rest')).
Proof.
  intros Hskip.
  pose proof (Run_start_spec env _ s eq_refl) as Hstart.
  unfold Run, bind. destruct (Run_start env s) as [o1 s1 t1].
  unfold started in Hstart. cbn in Hstart.
  assert (forall t, Forall setupP t -> ~ In EvHTTPServe t) as Hno.
  { intros t Ht Hin. rewrite Forall_forall in Ht. specialize (Ht _ Hin). discriminate. }
  destruct o1 as [[] | err | msg |].
  - destruct Hstart as [Hr (t & -> & Ht)].
    destruct Hr as (Hcfg & _). rewrite <- Hcfg in Hskip.
    rewrite (Run_sync_skip env s1 Hskip).
    pose proof (emits_trace serveP (Run_serve env) s1 (Run_serve_emits env)) as H3.
    pose proof (Run_serve_proxy_first env s1) as Hp.
    destruct (Run_serve env s1) as [o3 s3 t3]. cbn in *. split.
    + apply Forall_app. split.
      * apply Forall_app. split.
        -- eapply Forall_impl; [exact setupP_no_wait | exact Ht].
        -- repeat constructor.
      * constructor; [reflexivity |].
        eapply Forall_impl; [exact serveP_no_wait | exact H3].
    + intros _. exists t, t3. split; [rewrite <- app_assoc; reflexivity |].
      split; [exact Ht |]. split; [exact H3 |].
      intros Hsrv. destruct (Hp Hsrv) as [t' ->]. eexists. reflexivity.
  - cbn. split.
    + eapply Forall_impl; [exact setupP_no_wait | exact Hstart].
    + intros Hin. exfalso. exact (Hno _ Hstart Hin).
  - cbn. split.
    + eapply Forall_impl; [exact setupP_no_wait | exact Hstart].
    + intros Hin. exfalso. exact (Hno _ Hstart Hin).
  - cbn. split.
    + eapply Forall_impl; [exact setupP_no_wait | exact Hstart].
    + intros Hin. exfalso. exact (Hno _ Hstart Hin).
Qed.

Lemma Run_skip_sync_witness :
  Forall (fun e => waits_or_promotes e = false)
         (trace (Run sample_env (fresh (sample_config_with true true sample_exec)))).
Proof.
  exact (proj1 (Run_skip_sync sample_env
                  (fresh (sample_config_with true true sample_exec)) eq_refl)).
Defined.

(** ** Candidate-only steps *)

Lemma exec_calls_app (t1 t2 : list event) :
  exec_calls (t1 ++ t2) = (exec_calls t1 ++ exec_calls t2)%list.
Proof.
  apply flat_map_app.
Qed.

Lemma exec_calls_none (P : event -> bool) (t : list event) :
  (forall e, P e = true -> serves_or_spawns e = false) ->
  Forall (fun e => P e = true) t ->
  exec_calls t = [].
Proof.
  intros HP. induction 1 as [| e t He _ IH]; [reflexivity |].
  unfold exec_calls in *. cbn. rewrite IH. specialize (HP e He).
  destruct e; cbn in *; congruence.
Qed.

Lemma setup_event_quiet (e : event) : setup_event e = true -> serves_or_spawns e = false.
Proof.
  destruct e; cbn; congruence.
Qed.

Lemma sync_event_quiet (e : event) : sync_event e = true -> serves_or_spawns e = false.
Proof.
  destruct e; cbn; congruence.
Qed.

(** On a node whose store is not a candidate, the subprocesses [execCmds]
    runs are, in order, the first of those of the entries not marked
    candidate-only. *)
Lemma execCmds_from_noncandidate (env : Env) (len : Z) (configs : list ExecConfig) :
  forall i s st,
    c_Store (self s) = Some st ->
    Candidate st = false ->
    exists rest,
      runnable env configs
      = (exec_calls (trace (execCmds_from env len i configs s)) ++ rest)%list.
Proof.
  induction configs as [| config configs IH]; intros i s st Hst Hc.
  - exists []. reflexivity.
  - unfold runnable. cbn [execCmds_from filter].
    destruct (shellwords_Parse env (Cmd config)) as [[| name args] | err] eqn:Hparse.
    + unfold_monad. cbn. rewrite ?Hparse. cbn. eexists. reflexivity.
    + destruct (IfCandidate config) eqn:Hif; cbn [negb flat_map].
      * destruct (IH (i + 1)%Z s st Hst Hc) as [r Hr].
        unfold_monad. unfold Candidate in *. cbn. rewrite ?Hparse. cbn.
        rewrite Hst. cbn. rewrite Hc. cbn.
        destruct (execCmds_from env len (i + 1) configs s) as [o s1 t1].
        cbn in *. exists r. exact Hr.
      * unfold command_of at 1. rewrite ?Hparse.
        destruct (IH (i + 1)%Z
                     {| self := set_cmd (name, args) (self s);
                        expvarOnce := expvarOnce s |} st Hst Hc) as [r Hr].
        fold (runnable env configs). rewrite Hr.
        unfold execSyncCmd, execBackgroundCmd. unfold_monad. cbn.
        rewrite ?Hparse. cbn.
        destruct (i <? len - 1)%Z; cbn.
        -- destruct (cmd_Run env name args); cbn; [eexists; reflexivity |].
           destruct (execCmds_from env len (i + 1) configs _) as [o s1 t1].
           cbn. exists r. reflexivity.
        -- destruct (cmd_Start env name args); cbn; [eexists; reflexivity |].
           destruct (execCmds_from env len (i + 1) configs _) as [o s1 t1].
           cbn. exists r. reflexivity.
    + unfold_monad. cbn. rewrite ?Hparse. cbn. eexists. reflexivity.
Qed.

Lemma Run_serve_noncandidate (env : Env) (s : state) (st : Store) :
  c_Store (self s) = Some st ->
  Candidate st = false ->
  exists rest,
    runnable env (Exec (c_Config (self s)))
    = (exec_calls (trace (Run_serve env s)) ++ rest)%list.
Proof.
  intros Hst Hc.
  destruct (execCmds_from_noncandidate env
              (Z.of_nat (length (Exec (c_Config (self s)))))
              (Exec (c_Config (self s))) 0%Z s st Hst Hc) as [r Hr].
  unfold Run_serve, execCmds. unfold_monad. cbn.
  destruct (c_ProxyServer (self s)); cbn;
    (destruct (Z.of_nat (length (Exec (c_Config (self s)))) >? 0)%Z; cbn;
     [| eexists; reflexivity]);
    destruct (execCmds_from env _ 0 (Exec (c_Config (self s))) s)
      as [[| | |] s1 t1]; cbn in *; exists r; exact Hr.
Qed.

(** One step of the loop of [execCmds] on an entry marked candidate-only,
    on a node whose store is not a candidate, when the line of the entry
    parses to at least one word: a log line, and on to the next entry. *)
Lemma execCmds_from_skip (env : Env) (len i : Z) (config : ExecConfig)
    (rest : list ExecConfig) (s : state) (st : Store) (name : string)
    (args : list string) :
  c_Store (self s) = Some st ->
  Candidate st = false ->
  IfCandidate config = true ->
  shellwords_Parse env (Cmd config) = inl (name :: args) ->
  execCmds_from env len i (config :: rest) s
  = (log "node is not a candidate, skipping command execution: %s %v"
         [name; fmt_slice args] ;;
     execCmds_from env len (i + 1) rest) s.
Proof.
  intros Hst Hc Hif Hparse.
  cbn [execCmds_from]. unfold_monad. unfold Candidate in *. cbn.
  rewrite Hparse. cbn. rewrite Hif. cbn. rewrite Hst. cbn. rewrite Hc. cbn.
  destruct (execCmds_from env len (i + 1) rest s) as [o s1 t1]. reflexivity.
Qed.

(** C7, as it stands, fails: on a non-candidate, a candidate-only entry
    whose line does not parse ends [Run] with the parse error, and the entry
    after it, which [Run] starts when it is alone, is never started. *)
Lemma Run_unparsable_candidate_only_stops :
  result (Run sample_env (fresh (sample_config_with false false unparsable_then_app)))
  = Failed (wrapError "cannot exec"
             (wrapError "cannot parse exec command[0]"
                (errorString "invalid command line string")))
  /\ exec_calls (trace (Run sample_env
                          (fresh (sample_config_with false false unparsable_then_app))))
     = []
  /\ exec_calls (trace (Run sample_env
                          (fresh (sample_config_with false false
                                    [ {| Cmd := "app"; IfCandidate := false |} ]))))
     = [("app", [])]
  /\ ~ skips_and_continues.
Proof.
  split; [vm_compute; reflexivity |].
  split; [vm_compute; reflexivity |].
  split; [vm_compute; reflexivity |].
  intros H.
  assert (c_Store (self (final (initStore
            (fresh (sample_config_with false false unparsable_then_app)))))
          = Some {| store_Path := "/var/lib/litefs"; store_candidate := false;
                    store_StrictVerify := false; Compress := true;
                    Retention := 600 * Second;
                    RetentionMonitorInterval := 60 * Second;
                    ReconnectDelay := 1 * Second; DemoteDelay := 10 * Second;
                    store_Client := Some NewClient;
                    store_Leaser := None; Invalidator := None |}) as Hst
    by reflexivity.
  destruct (H sample_env 2%Z 0%Z {| Cmd := "'"; IfCandidate := true |}
              [ {| Cmd := "app"; IfCandidate := false |} ]
              _ _ Hst eq_refl eq_refl) as [H1 _].
  vm_compute in H1. discriminate.
Qed.

Lemma promotes_none (P : event -> bool) (t : list event) :
  (forall e, P e = true -> promotes e = false) ->
  Forall (fun e => P e = true) t ->
  Forall (fun e => promotes e = false) t.
Proof.
  intros HP Ht. eapply Forall_impl; [| exact Ht]. exact HP.
Qed.

Lemma setup_event_no_promote (e : event) : setup_event e = true -> promotes e = false.
Proof.
  destruct e; cbn; congruence.
Qed.

Lemma sync_event_no_promote (e : event) : sync_event e = true -> promotes e = false.
Proof.
  destruct e; cbn; congruence.
Qed.

Lemma serve_event_no_promote (e : event) : serve_event e = true -> promotes e = false.
Proof.
  destruct e; cbn; congruence.
Qed.

(** C7, amended.  On a node configured as a non-candidate, for every
    configuration and run: the subprocesses [Run] runs or starts are, in
    order, the first of those of the [exec] entries not marked
    candidate-only, so that no entry marked candidate-only is executed; no
    step of promotion is taken; and in the loop of [execCmds] an entry
    marked candidate-only whose line parses to at least one word costs a log
    line, after which the loop goes on with the entries that remain. *)
Theorem Run_noncandidate_skips (env : Env) (s : state) :
  Lease_Candidate (Lease (c_Config (self s))) = false ->
  (exists rest,
      runnable env (Exec (c_Config (self s)))
      = (exec_calls (trace (Run env s)) ++ rest)%list) /\
  Forall (fun e => promotes e = false) (trace (Run env s)) /\
  (forall len i config rest s' st name args,
      c_Store (self s') = Some st ->
      Candidate st = false ->
      IfCandidate config = true ->
      shellwords_Parse env (Cmd config) = inl (name :: args) ->
      execCmds_from env len i (config :: rest) s'
      = (log "node is not a candidate, skipping command execution: %s %v"
             [name; fmt_slice args] ;;
         execCmds_from env len (i + 1) rest) s').
Proof.
  intros Hcand.
  split; [| split; [| intros; eapply execCmds_from_skip; eassumption]].
  - pose proof (Run_start_spec env _ s eq_refl) as Hstart.
    unfold Run, bind. destruct (Run_start env s) as [o1 s1 t1].
    unfold started in Hstart. cbn in Hstart.
    destruct o1 as [[] | err | msg |]; cbn [trace];
      try (rewrite (exec_calls_none setup_event t1 setup_event_quiet Hstart);
           eexists; reflexivity).
    destruct Hstart as [(Hcfg & (st & Hst & Hc) & _) (t & -> & Ht)].
    rewrite Hcand in Hc.
    destruct (Run_sync_noncandidate env s1 st Hst Hc) as [Hfinal Hsync].
    destruct (Run_serve_noncandidate env s1 st Hst Hc) as [r Hr].
    rewrite Hcfg in Hr.
    destruct (Run_sync env s1) as [o2 s2 t2]. cbn in Hfinal, Hsync. subst s2.
    assert (exec_calls (t ++ [EvHTTPServe;
                              EvLog "http server listening on: %s" [http_URL env]])
            = []) as H1.
    { rewrite exec_calls_app.
      rewrite (exec_calls_none setup_event t setup_event_quiet Ht). reflexivity. }
    pose proof (exec_calls_none sync_event t2 sync_event_quiet Hsync) as H2.
    destruct o2 as [[] | err | msg |];
      [destruct (Run_serve env s1) as [o3 s3 t3] | | |]; cbn [trace] in *;
      rewrite exec_calls_app, H1; rewrite ?exec_calls_app, ?H2; cbn [app];
      [exists r; exact Hr | | |]; eexists; reflexivity.
  - pose proof (Run_start_spec env _ s eq_refl) as Hstart.
    unfold Run, bind. destruct (Run_start env s) as [o1 s1 t1].
    unfold started in Hstart. cbn in Hstart.
    destruct o1 as [[] | err | msg |]; cbn [trace];
      try exact (promotes_none setup_event t1 setup_event_no_promote Hstart).
    destruct Hstart as [(Hcfg & (st & Hst & Hc) & _) (t & -> & Ht)].
    rewrite Hcand in Hc.
    destruct (Run_sync_noncandidate env s1 st Hst Hc) as [Hfinal Hsync].
    pose proof (emits_trace serveP (Run_serve env) s1 (Run_serve_emits env)) as H3.
    assert (Forall (fun e => promotes e = false)
                   (t ++ [EvHTTPServe;
                          EvLog "http server listening on: %s" [http_URL env]])%list)
      as H1.
    { apply Forall_app. split; [| repeat constructor].
      exact (promotes_none setup_event t setup_event_no_promote Ht). }
    pose proof (promotes_none sync_event _ sync_event_no_promote Hsync) as H2.
    pose proof (promotes_none serve_event _ serve_event_no_promote H3) as H3'.
    destruct (Run_sync env s1) as [o2 s2 t2]. cbn in Hfinal, H2. subst s2.
    destruct o2 as [[] | err | msg |];
      [destruct (Run_serve env s1) as [o3 s3 t3] | | |]; cbn [trace] in *;
      repeat first [assumption | apply Forall_app; split].
Qed.

Lemma Run_noncandidate_skips_witness :
  exists rest,
    runnable sample_env sample_exec
    = (exec_calls (trace (Run sample_env
                            (fresh (sample_config_with false false sample_exec))))
       ++ rest)%list.
Proof.
  exact (proj1 (Run_noncandidate_skips sample_env
                  (fresh (sample_config_with false false sample_exec)) eq_refl)).
Defined.

(** * Further properties *)

(** ** Closing *)

Lemma Close_calls_owed (cenv : CloseEnv) (c : MountCommand) :
  fst (Close cenv c) = owed c.
Proof.
  unfold Close, owed.
  destruct (c_ProxyServer c), (c_HTTPServer c), (c_FileSystem c), (c_Store c);
    reflexivity.
Qed.

(** X1.  [Close] calls the closing method of every component that is set,
    once each, in the order proxy server, HTTP server, file system, store,
    and of no other; an error of one does not keep it from the next.  It
    returns the first error among their answers, and nil when there is
    none. *)
Theorem Close_calls_all_returns_first (cenv : CloseEnv) (c : MountCommand) :
  fst (Close cenv c) = owed c /\
  snd (Close cenv c) = first_error (map (answer cenv) (owed c)).
Proof.
  unfold Close, owed.
  destruct (c_ProxyServer c), (c_HTTPServer c), (c_FileSystem c), (c_Store c);
    cbn; (split; [reflexivity |]);
    destruct (proxy_Close cenv), (http_Close cenv), (fsys_Unmount cenv),
             (store_Close cenv); reflexivity.
Qed.

(** X2.  [Close] returns nil exactly when every component that is set
    closes without error. *)
Theorem Close_nil_iff (cenv : CloseEnv) (c : MountCommand) :
  snd (Close cenv c) = None <->
  (c_ProxyServer c <> None -> proxy_Close cenv = None) /\
  (c_HTTPServer c <> None -> http_Close cenv = None) /\
  (c_FileSystem c <> None -> fsys_Unmount cenv = None) /\
  (c_Store c <> None -> store_Close cenv = None).
Proof.
  unfold Close.
  destruct (c_ProxyServer c), (c_HTTPServer c), (c_FileSystem c), (c_Store c);
    destruct (proxy_Close cenv), (http_Close cenv), (fsys_Unmount cenv),
             (store_Close cenv); cbn;
    (split; [intros H; try discriminate; repeat split; intros; congruence
            | intros (H1 & H2 & H3 & H4); try reflexivity;
              first [ discriminate (H1 ltac:(discriminate))
                    | discriminate (H2 ltac:(discriminate))
                    | discriminate (H3 ltac:(discriminate))
                    | discriminate (H4 ltac:(discriminate)) ]]).
Qed.

(** ** Properties kept along a run *)

Lemma keeps_bind {A B} (J : list event -> state -> Prop) (m : M A) (k : A -> M B) :
  keeps J m -> (forall a, keeps J (k a)) -> keeps J (bind m k).
Proof.
  intros Hm Hk t0 s Hs. specialize (Hm t0 s Hs). unfold bind.
  destruct (m s) as [[a | err | msg |] s1 t1]; cbn in *; try exact Hm.
  specialize (Hk a _ _ Hm). destruct (k a s1) as [o s2 t2]. cbn in *.
  rewrite app_assoc. exact Hk.
Qed.

Lemma keeps_wrapping {A} (J : list event -> state -> Prop) (msg : string) (m : M A) :
  keeps J m -> keeps J (wrapping msg m).
Proof.
  intros Hm t0 s Hs. specialize (Hm t0 s Hs). unfold wrapping.
  destruct (m s) as [[a | err | p |] s1 t1]; exact Hm.
Qed.

Lemma keeps_defer {A} (J : list event -> state -> Prop) (d : M unit) (body : M A) :
  keeps J body -> keeps J d -> keeps J (defer d body).
Proof.
  intros Hb Hd t0 s Hs. specialize (Hb t0 s Hs). unfold defer.
  destruct (body s) as [o s1 t1]. cbn in Hb.
  specialize (Hd _ _ Hb). destruct (d s1) as [o' s2 t2]. cbn in Hd.
  destruct o; cbn; try (rewrite app_assoc; exact Hd). exact Hb.
Qed.

(** A method that emits nothing and changes nothing keeps everything. *)
Lemma keeps_silent {A} (J : list event -> state -> Prop) (m : M A) :
  (forall s, trace (m s) = [] /\ final (m s) = s) -> keeps J m.
Proof.
  intros Hm t0 s Hs. destruct (Hm s) as [-> ->]. rewrite app_nil_r. exact Hs.
Qed.

Lemma keeps_ret {A} (J : list event -> state -> Prop) (a : A) : keeps J (ret a).
Proof. apply keeps_silent. intros s. split; reflexivity. Qed.

Lemma keeps_fail {A} (J : list event -> state -> Prop) (err : error) :
  keeps J (fail err : M A).
Proof. apply keeps_silent. intros s. split; reflexivity. Qed.

Lemma keeps_panic {A} (J : list event -> state -> Prop) (msg : string) :
  keeps J (panic msg : M A).
Proof. apply keeps_silent. intros s. split; reflexivity. Qed.

Lemma keeps_blocked {A} (J : list event -> state -> Prop) : keeps J (blocked : M A).
Proof. apply keeps_silent. intros s. split; reflexivity. Qed.

Lemma keeps_get_self (J : list event -> state -> Prop) : keeps J get_self.
Proof. apply keeps_silent. intros s. split; reflexivity. Qed.

Lemma keeps_check (J : list event -> state -> Prop) (r : option error) :
  keeps J (check r).
Proof. apply keeps_silent. intros s. destruct r; split; reflexivity. Qed.

Lemma keeps_the_Store (J : list event -> state -> Prop) : keeps J the_Store.
Proof.
  apply keeps_silent. intros s. unfold the_Store, bind, get_self. cbn.
  destruct (c_Store (self s)); split; reflexivity.
Qed.

Lemma keeps_the_HTTPServer (J : list event -> state -> Prop) : keeps J the_HTTPServer.
Proof.
  apply keeps_silent. intros s. unfold the_HTTPServer, bind, get_self. cbn.
  destruct (c_HTTPServer (self s)); split; reflexivity.
Qed.

Lemma kept_bind {A B} (J : list event -> state -> Prop) (m : M A) (k : A -> M B)
    (s : state) :
  J (trace (m s)) (final (m s)) ->
  (forall a, keeps J (k a)) ->
  J (trace (bind m k s)) (final (bind m k s)).
Proof.
  intros Hm Hk. unfold bind.
  destruct (m s) as [[a | err | msg |] s1 t1]; cbn in *; try exact Hm.
  specialize (Hk a _ _ Hm). destruct (k a s1) as [o s2 t2]. exact Hk.
Qed.

(** What follows [Run_start] emits late events only and changes no field but
    [cmd]: a property kept by a late event and by a change of [cmd] is kept
    by [Run_sync] and [Run_serve]. *)
Section Late.

Variable J : list event -> state -> Prop.
Hypothesis J_emit : forall e, late_event e = true -> keeps J (emit e).
Hypothesis J_cmd : forall v, keeps J (modify (set_cmd v)).
Variable env : Env.

Ltac late_auto :=
  repeat first
    [ apply keeps_ret
    | apply keeps_fail
    | apply keeps_panic
    | apply keeps_blocked
    | apply keeps_get_self
    | apply keeps_check
    | apply keeps_the_Store
    | apply J_cmd
    | apply J_emit; reflexivity
    | apply keeps_wrapping
    | apply keeps_defer
    | apply keeps_bind; [| intro]
    | match goal with
      | |- keeps _ (if ?b then _ else _) => destruct b
      | |- keeps _ (match ?x with _ => _ end) => destruct x
      end ].

Lemma keeps_promote_wait (timeline : list happening) : keeps J (promote_wait timeline).
Proof.
  induction timeline as [| [| b |] timeline IH]; cbn [promote_wait].
  - apply keeps_blocked.
  - exact IH.
  - late_auto. exact IH.
  - late_auto.
Qed.

Lemma keeps_promote : keeps J (promote env).
Proof.
  unfold promote. late_auto. apply keeps_promote_wait.
Qed.

Lemma keeps_Run_sync : keeps J (Run_sync env).
Proof.
  unfold Run_sync. late_auto; apply keeps_promote_wait.
Qed.

Lemma keeps_execCmds_from (len : Z) (configs : list ExecConfig) :
  forall i, keeps J (execCmds_from env len i configs).
Proof.
  induction configs as [| config configs IH]; intros i; cbn [execCmds_from].
  - apply keeps_ret.
  - unfold execSyncCmd, execBackgroundCmd. late_auto; apply IH.
Qed.

Lemma keeps_Run_serve : keeps J (Run_serve env).
Proof.
  unfold Run_serve, execCmds. late_auto; apply keeps_execCmds_from.
Qed.

End Late.

Lemma keeps_compilePassthroughs (J : list event -> state -> Prop) (env : Env)
    (exprs : list string) :
  forall acc, keeps J (compilePassthroughs env exprs acc).
Proof.
  induction exprs as [| e exprs IH]; intros acc; cbn [compilePassthroughs].
  - apply keeps_ret.
  - destruct (http_CompileMatch env e); [apply keeps_fail | apply IH].
Qed.

(** ** What [Run] opens, [Close] closes *)

Ltac ledger_cases :=
  let t0 := fresh "t0" in
  let s := fresh "s" in
  let Hs := fresh "Hs" in
  let Hh := fresh "Hh" in
  let Hp := fresh "Hp" in
  let Hf := fresh "Hf" in
  unfold ledger, keeps; intros t0 s (Hs & Hh & Hp & Hf); unfold_monad; by_cases;
  unfold recorded; cbn;
  (split; [first [assumption | discriminate | congruence] |]);
  repeat split;
  (let Hok := fresh "Hok" in
   let x := fresh "x" in
   let Hin := fresh "Hin" in
   intros Hok [x Hin]; apply in_app_or in Hin; destruct Hin as [Hin | Hin];
   [ first [ discriminate
           | apply Hh; [assumption | eexists; exact Hin]
           | apply Hp; [assumption | eexists; exact Hin]
           | apply Hf; [assumption | eexists; exact Hin]
           | exfalso; first [eapply Hh | eapply Hp | eapply Hf];
             [exact Hok | eexists; exact Hin | reflexivity]
           | congruence ]
   | cbn in Hin;
     repeat match goal with
            | H : _ \/ _ |- _ => destruct H
            | H : False |- _ => destruct H
            end; first [discriminate | congruence] ]).

Lemma ledger_emit (env : Env) (e : event) :
  match e with
  | EvHTTPListen _ | EvProxyListen _ | EvMount _ => False
  | _ => True
  end ->
  ledger env (emit e).
Proof.
  intros He. destruct e; try contradiction; ledger_cases.
Qed.

Lemma ledger_late (env : Env) (e : event) : late_event e = true -> ledger env (emit e).
Proof.
  intros He. apply ledger_emit. destruct e; try exact I; discriminate.
Qed.

Lemma ledger_set_Leaser (env : Env) (l : Leaser) : ledger env (modify (set_Leaser l)).
Proof. ledger_cases. Qed.

Lemma ledger_set_cmd (env : Env) (v : string * list string) :
  ledger env (modify (set_cmd v)).
Proof. ledger_cases. Qed.

Lemma ledger_initHTTPServer (env : Env) : ledger env (initHTTPServer env).
Proof. unfold initHTTPServer. ledger_cases. Qed.

Lemma ledger_initConsul (env : Env) : ledger env (initConsul env).
Proof.
  unfold initConsul, consul_NewLeaser, set_TTL, set_LockDelay. ledger_cases.
Qed.

Lemma ledger_openStore (env : Env) : ledger env (openStore env).
Proof. unfold openStore, expvarOnce_Do. ledger_cases. Qed.

Lemma ledger_initFileSystem (env : Env) : ledger env (initFileSystem env).
Proof. unfold initFileSystem. ledger_cases. Qed.

Lemma ledger_initProxyServer (env : Env) : ledger env (initProxyServer env).
Proof.
  unfold initProxyServer. apply keeps_bind; [apply keeps_get_self | intros c].
  destruct (Proxy_Target (Proxy (c_Config c)) =? "").
  - apply ledger_emit. exact I.
  - apply keeps_bind; [apply keeps_compilePassthroughs | intros passthroughs].
    ledger_cases.
Qed.

Lemma bind_emit_run {B} (e : event) (k : M B) (s : state) :
  (emit e ;; k) s
  = mkRan (result (k s)) (final (k s)) (e :: trace (k s)).
Proof.
  unfold bind. cbn. destruct (k s). reflexivity.
Qed.

Lemma bind_initStore_run {B} (msg : string) (k : M B) (s : state) :
  (wrapping msg initStore ;; k) s
  = mkRan (result (k (final (initStore s)))) (final (k (final (initStore s))))
          (trace (k (final (initStore s)))).
Proof.
  unfold bind. cbn. destruct (k _). reflexivity.
Qed.

Lemma Run_start_recorded (env : Env) (s : state) :
  recorded env (trace (Run_start env s)) (final (Run_start env s)).
Proof.
  unfold Run_start. rewrite bind_emit_run. cbn [trace final].
  rewrite bind_initStore_run. cbn [trace final].
  match goal with
  | |- recorded _ (_ :: trace (?rest ?s1)) _ =>
      assert (ledger env rest) as Hrest;
      [ | apply (Hrest [EvPrintln (VersionString env)] s1) ]
  end.
  - repeat first
      [ apply ledger_initHTTPServer | apply ledger_initProxyServer
      | apply ledger_initConsul | apply ledger_openStore
      | apply ledger_initFileSystem
      | apply keeps_ret | apply keeps_fail | apply keeps_panic
      | apply keeps_get_self | apply keeps_the_HTTPServer
      | apply ledger_set_Leaser
      | apply ledger_emit; exact I
      | apply keeps_wrapping
      | apply keeps_bind; [| intro]
      | match goal with
        | |- ledger _ (if ?b then _ else _) => destruct b
        | |- ledger _ (match ?x with _ => _ end) => destruct x
        | |- keeps _ (if ?b then _ else _) => destruct b
        | |- keeps _ (match ?x with _ => _ end) => destruct x
        end ].
  - unfold recorded. cbn. repeat split; try discriminate;
      intros _ [x [Hx | []]]; discriminate.
Qed.

Lemma Run_recorded (env : Env) (s : state) :
  recorded env (trace (Run env s)) (final (Run env s)).
Proof.
  unfold Run. apply kept_bind; [apply Run_start_recorded |].
  intros _. apply keeps_bind.
  - apply keeps_Run_sync. apply ledger_late.
  - intros _. apply keeps_Run_serve; [apply ledger_late | apply ledger_set_cmd].
Qed.

(** X3.  After [Run], however it ended, [Close] on the command closes the
    store, closes the HTTP server if [Run] had it listen and it did, closes
    the proxy server if [Run] had it listen and it did, and unmounts the
    file system if [Run] mounted it. *)
Theorem Run_then_Close_releases (env : Env) (cenv : CloseEnv) (s : state) :
  In ClStore (fst (Close cenv (self (final (Run env s))))) /\
  (http_Listen env = None ->
   (exists srv, In (EvHTTPListen srv) (trace (Run env s))) ->
   In ClHTTPServer (fst (Close cenv (self (final (Run env s)))))) /\
  (proxy_Listen env = None ->
   (exists srv, In (EvProxyListen srv) (trace (Run env s))) ->
   In ClProxyServer (fst (Close cenv (self (final (Run env s)))))) /\
  (fsys_Mount env = None ->
   (exists fsys, In (EvMount fsys) (trace (Run env s))) ->
   In ClUnmount (fst (Close cenv (self (final (Run env s)))))).
Proof.
  destruct (Run_recorded env s) as (Hs & Hh & Hp & Hf).
  rewrite Close_calls_owed. unfold owed.
  repeat split.
  - destruct (c_Store (self (final (Run env s)))); [| congruence].
    rewrite !in_app_iff. cbn. tauto.
  - intros Hok Hin. specialize (Hh Hok Hin).
    destruct (c_HTTPServer (self (final (Run env s)))); [| congruence].
    rewrite !in_app_iff. cbn. tauto.
  - intros Hok Hin. specialize (Hp Hok Hin).
    destruct (c_ProxyServer (self (final (Run env s)))); [| congruence].
    rewrite !in_app_iff. cbn. tauto.
  - intros Hok Hin. specialize (Hf Hok Hin).
    destruct (c_FileSystem (self (final (Run env s)))); [| congruence].
    rewrite !in_app_iff. cbn. tauto.
Qed.

(** ** Publishing across runs *)

Ltac once_cases :=
  let t0 := fresh "t0" in
  let s := fresh "s" in
  let H := fresh "H" in
  unfold keeps, once_inv, once_count; intros t0 s H; unfold_monad; by_cases;
  rewrite ?filter_app, ?length_app; cbn; try lia; try congruence.

Lemma once_emit (s0 : state) (e : event) :
  is_publish e = false -> keeps (once_inv s0) (emit e).
Proof.
  intros He. unfold keeps, once_inv. intros t0 s H. cbn.
  rewrite filter_app, length_app. cbn. rewrite He. cbn. lia.
Qed.

Lemma once_late (s0 : state) (e : event) :
  late_event e = true -> keeps (once_inv s0) (emit e).
Proof.
  intros He. apply once_emit. destruct e; try reflexivity; discriminate.
Qed.

Lemma once_modify (s0 : state) (f : MountCommand -> MountCommand) :
  keeps (once_inv s0) (modify f).
Proof. once_cases. Qed.

Lemma once_openStore (s0 : state) (env : Env) : keeps (once_inv s0) (openStore env).
Proof. unfold openStore, expvarOnce_Do. once_cases. Qed.

Lemma once_initConsul (s0 : state) (env : Env) : keeps (once_inv s0) (initConsul env).
Proof.
  unfold initConsul, consul_NewLeaser, set_TTL, set_LockDelay. once_cases.
Qed.

Lemma once_Run_start (s0 : state) (env : Env) : keeps (once_inv s0) (Run_start env).
Proof.
  unfold Run_start, initStore, initHTTPServer, initProxyServer, initFileSystem.
  repeat first
    [ apply once_openStore | apply once_initConsul
    | apply keeps_compilePassthroughs
    | apply keeps_ret | apply keeps_fail | apply keeps_panic
    | apply keeps_get_self | apply keeps_the_HTTPServer | apply keeps_the_Store
    | apply keeps_check
    | apply once_modify
    | apply once_emit; reflexivity
    | apply keeps_wrapping
    | apply keeps_bind; [| intro]
    | match goal with
      | |- keeps _ (if ?b then _ else _) => destruct b
      | |- keeps _ (match ?x with _ => _ end) => destruct x
      end ].
Qed.

Lemma once_Run (s0 : state) (env : Env) : keeps (once_inv s0) (Run env).
Proof.
  unfold Run. apply keeps_bind; [apply once_Run_start |].
  intros _. apply keeps_bind.
  - apply keeps_Run_sync. apply once_late.
  - intros _. apply keeps_Run_serve; [apply once_late | intros v; apply once_modify].
Qed.

(** The publications of one [Run] are as many as [expvarOnce] went up. *)
Lemma Run_publishes (env : Env) (s : state) :
  (publishes (Run env s) + once_count s = once_count (final (Run env s)))%nat.
Proof.
  pose proof (once_Run s env [] s) as H. unfold once_inv in H. cbn in H.
  apply H. reflexivity.
Qed.

Lemma list_sum_step (n : nat) (l : list nat) : list_sum (n :: l) = (n + list_sum l)%nat.
Proof. reflexivity. Qed.

Lemma Run_calls_sum (runs : list (Env * MountCommand)) :
  forall once,
    (list_sum (map publishes (Run_calls runs once)) + (if once then 1 else 0) <= 1)%nat.
Proof.
  induction runs as [| [env c] runs IH]; intros once; cbn [Run_calls map].
  - destruct once; cbn; lia.
  - rewrite list_sum_step.
    pose proof (Run_publishes env {| self := c; expvarOnce := once |}) as Hp.
    specialize (IH (expvarOnce (final (Run env {| self := c; expvarOnce := once |})))).
    unfold once_count in Hp. cbn [expvarOnce] in Hp.
    destruct (expvarOnce (final (Run env {| self := c; expvarOnce := once |})));
      destruct once; lia.
Qed.

(** X4.  Over any series of calls of [Run] in one process, each on its own
    command and with its own answers from the collaborators, the store
    metric is published at most once; a [Run] that starts when
    [expvarOnce] has run publishes nothing, and [expvarOnce] never goes
    back. *)
Theorem Run_calls_publish_once (runs : list (Env * MountCommand)) (once : bool) :
  (list_sum (map publishes (Run_calls runs once)) <= 1)%nat /\
  (forall env s, expvarOnce s = true ->
                 publishes (Run env s) = O /\ expvarOnce (final (Run env s)) = true).
Proof.
  split.
  - pose proof (Run_calls_sum runs once). lia.
  - intros env s Hs. pose proof (Run_publishes env s) as Hp.
    unfold once_count in Hp. rewrite Hs in Hp.
    destruct (expvarOnce (final (Run env s))); [split; [lia | reflexivity] | lia].
Qed.

(** ** What [promote] returns and leaves behind *)

Lemma promote_wait_events (timeline : list happening) (s : state) :
  Forall (fun e => poll_event e = true) (trace (promote_wait timeline s)) /\
  final (promote_wait timeline s) = s.
Proof.
  induction timeline as [| [| b |] timeline IH]; cbn [promote_wait].
  - split; [constructor | reflexivity].
  - exact IH.
  - unfold_monad. cbn. destruct b; cbn.
    + split; [repeat constructor | reflexivity].
    + destruct (promote_wait timeline s) as [o s1 t1]. cbn in *.
      destruct IH as [IH ->]. split; [repeat constructor; exact IH | reflexivity].
  - unfold_monad. cbn. split; [repeat constructor | reflexivity].
Qed.

Lemma promote_wait_sound (timeline : list happening) (s : state) :
  result (promote_wait timeline s) = Returned tt ->
  In (EvIsPrimary true) (trace (promote_wait timeline s)) /\
  ~ In EvRecvTimeout (trace (promote_wait timeline s)).
Proof.
  induction timeline as [| [| b |] timeline IH]; cbn [promote_wait].
  - discriminate.
  - exact IH.
  - unfold_monad. cbn. destruct b; cbn.
    + intros _. split; [right; left; reflexivity |].
      intros [H | [H | []]]; discriminate.
    + destruct (promote_wait timeline s) as [o s1 t1]. cbn in *.
      intros Ho. destruct (IH Ho) as [Hin Hno]. split.
      * right. right. exact Hin.
      * intros [H | [H | H]]; try discriminate. exact (Hno H).
  - unfold_monad. cbn. discriminate.
Qed.

Lemma promote_returned_sound (env : Env) (s : state) :
  result (promote env s) = Returned tt ->
  fst (store_PrimaryInfo env) = true \/
  (client_Handoff env (snd (store_PrimaryInfo env)) (store_ID env) = None /\
   In (EvIsPrimary true) (trace (promote env s)) /\
   ~ In EvRecvTimeout (trace (promote env s))).
Proof.
  unfold promote. unfold_monad. cbn.
  destruct (c_Store (self s)); cbn; [| discriminate].
  destruct (fst (store_PrimaryInfo env)); cbn; [left; reflexivity |].
  destruct (client_Handoff env _ _); cbn; [discriminate |].
  pose proof (promote_wait_sound (promote_timeline env) s) as Hw.
  destruct (promote_wait (promote_timeline env) s) as [o s1 t1]. cbn in *.
  destruct o as [[] | err | msg |]; cbn; try discriminate.
  intros _. right. destruct (Hw eq_refl) as [Hin Hno].
  split; [reflexivity |]. split.
  - cbn. rewrite !in_app_iff. tauto.
  - cbn. rewrite !in_app_iff. cbn.
    intros [H | [H | [H | [H | [[H | [H | []]] | [H | []]]]]]];
      try discriminate. exact (Hno H).
Qed.

(** X5.  [promote] returns nil only when the store is primary: either
    [PrimaryInfo] said so at the start, or the handoff request succeeded and
    a poll of [IsPrimary] answered true before the timeout delivered. *)
Theorem promote_nil_means_primary (env : Env) (s : state) :
  result (promote env s) = Returned tt ->
  fst (store_PrimaryInfo env) = true \/
  (client_Handoff env (snd (store_PrimaryInfo env)) (store_ID env) = None /\
   In (EvIsPrimary true) (trace (promote env s)) /\
   ~ In EvRecvTimeout (trace (promote env s))).
Proof.
  exact (promote_returned_sound env s).
Qed.

Lemma promote_nil_means_primary_witness :
  fst (store_PrimaryInfo sample_env) = true \/
  (client_Handoff sample_env (snd (store_PrimaryInfo sample_env)) (store_ID sample_env)
   = None /\
   In (EvIsPrimary true)
      (trace (promote sample_env (final (initStore (fresh sample_config))))) /\
   ~ In EvRecvTimeout
        (trace (promote sample_env (final (initStore (fresh sample_config)))))).
Proof.
  apply (promote_nil_means_primary sample_env (final (initStore (fresh sample_config)))).
  reflexivity.
Defined.

Lemma poll_no_tickers (t : list event) :
  Forall (fun e => poll_event e = true) t ->
  tickers_made t = [] /\ tickers_stopped t = [].
Proof.
  induction 1 as [| e t He _ [IH1 IH2]]; [split; reflexivity |].
  unfold tickers_made, tickers_stopped in *. cbn. rewrite IH1, IH2.
  destruct e; try discriminate; split; reflexivity.
Qed.

(** X6.  [promote] makes its two tickers and polls only after a handoff
    request that succeeded, on a store that did not say it was primary.
    When it returns, with nil or with an error, it has stopped every ticker
    it made, the last made first; while it waits, none is stopped. *)
Theorem promote_tickers (env : Env) (s : state) :
  (tickers_made (trace (promote env s)) <> [] \/
   Exists (fun e => poll_event e = true) (trace (promote env s)) ->
   fst (store_PrimaryInfo env) = false /\
   client_Handoff env (snd (store_PrimaryInfo env)) (store_ID env) = None /\
   tickers_made (trace (promote env s)) = [1 * Millisecond; 10 * Second]%Z) /\
  (result (promote env s) <> Blocked ->
   tickers_stopped (trace (promote env s)) = rev (tickers_made (trace (promote env s)))) /\
  (result (promote env s) = Blocked ->
   tickers_stopped (trace (promote env s)) = []).
Proof.
  unfold promote. unfold_monad. cbn.
  assert (forall P : Prop, ([] : list Duration) <> [] \/ P -> P) as Hnil.
  { intros P [H | H]; [congruence | exact H]. }
  destruct (c_Store (self s)); cbn.
  2:{ split; [| split; intros _; reflexivity].
      intros H. apply Hnil in H. inversion H. }
  destruct (fst (store_PrimaryInfo env)); cbn.
  { split; [| split; intros _; reflexivity].
    intros H. apply Hnil in H.
    repeat match goal with
           | H : Exists _ (_ :: _) |- _ => inversion H; clear H; subst
           | H : Exists _ [] |- _ => inversion H
           end; discriminate. }
  destruct (client_Handoff env _ _); cbn.
  { split; [| split; intros _; reflexivity].
    intros H. apply Hnil in H.
    repeat match goal with
           | H : Exists _ (_ :: _) |- _ => inversion H; clear H; subst
           | H : Exists _ [] |- _ => inversion H
           end; discriminate. }
  destruct (promote_wait_events (promote_timeline env) s) as [Hev _].
  destruct (poll_no_tickers _ Hev) as [Hm Hst].
  destruct (promote_wait (promote_timeline env) s) as [o s1 t1]. cbn in *.
  unfold tickers_made, tickers_stopped in *.
  destruct o as [[] | err | msg |]; cbn;
    rewrite ?flat_map_app; cbn; rewrite ?Hm, ?Hst; cbn;
    repeat split; try reflexivity; try congruence.
Qed.

(** ** When [Run] promotes *)

Lemma setup_event_not_PrimaryInfo (t : list event) :
  Forall setupP t -> ~ In EvPrimaryInfo t.
Proof.
  intros Ht Hin. rewrite Forall_forall in Ht. specialize (Ht _ Hin). discriminate.
Qed.

Lemma serve_event_not_PrimaryInfo (t : list event) :
  Forall serveP t -> ~ In EvPrimaryInfo t.
Proof.
  intros Ht Hin. rewrite Forall_forall in Ht. specialize (Ht _ Hin). discriminate.
Qed.

Lemma Run_sync_promotes_iff (env : Env) (s : state) (st : Store) :
  c_Store (self s) = Some st ->
  (In EvPrimaryInfo (trace (Run_sync env s)) <->
   SkipSync (c_Config (self s)) = false /\
   ready_wait env = Some StoreReady /\
   Lease_Promote (Lease (c_Config (self s))) = true /\
   Candidate st = true).
Proof.
  intros Hst. unfold Run_sync, promote, Candidate. unfold_monad.
  by_cases;
    try match goal with
        | H : Some _ = Some _ |- _ => injection H as ->
        end;
    (split;
     [ intros Hin; rewrite ?in_app_iff in Hin; cbn in Hin;
       repeat split; try reflexivity; try congruence;
       exfalso;
       repeat match goal with
              | H : _ \/ _ |- _ => destruct H
              | H : False |- _ => destruct H
              end; discriminate
     | intros (H1 & H2 & H3 & H4); try discriminate; try congruence;
       cbn; rewrite ?in_app_iff; cbn; tauto ]).
Qed.

(** X7.  [Run] asks the store whether it is primary, the first step of
    promotion, in exactly one case: [SkipSync] is off, the store got ready,
    the promote flag is set and the node is configured as a candidate.  In
    every other case no run of [Run] takes that step. *)
Theorem Run_promotes_iff (env : Env) (s : state) :
  (In EvPrimaryInfo (trace (Run env s)) ->
   SkipSync (c_Config (self s)) = false /\
   ready_wait env = Some StoreReady /\
   Lease_Promote (Lease (c_Config (self s))) = true /\
   Lease_Candidate (Lease (c_Config (self s))) = true) /\
  (result (Run_start env s) = Returned tt ->
   SkipSync (c_Config (self s)) = false ->
   ready_wait env = Some StoreReady ->
   Lease_Promote (Lease (c_Config (self s))) = true ->
   Lease_Candidate (Lease (c_Config (self s))) = true ->
   In EvPrimaryInfo (trace (Run env s))).
Proof.
  pose proof (Run_start_spec env _ s eq_refl) as Hstart.
  unfold Run, bind. destruct (Run_start env s) as [o1 s1 t1].
  unfold started in Hstart. cbn [result final trace] in *.
  destruct o1 as [[] | err | msg |]; cbn [trace];
    try (split; [intros Hin; exfalso;
                 exact (setup_event_not_PrimaryInfo _ Hstart Hin) | discriminate]).
  destruct Hstart as [(Hcfg & (st & Hst & Hc) & _) (t & -> & Ht)].
  pose proof (Run_sync_promotes_iff env s1 st Hst) as Hiff.
  rewrite Hcfg, Hc in Hiff.
  pose proof (emits_trace serveP (Run_serve env)) as H3.
  assert (~ In EvPrimaryInfo
            (t ++ [EvHTTPServe; EvLog "http server listening on: %s" [http_URL env]])%list)
    as H1.
  { rewrite in_app_iff. intros [H | [H | [H | []]]]; try discriminate.
    exact (setup_event_not_PrimaryInfo _ Ht H). }
  destruct (Run_sync env s1) as [o2 s2 t2]. cbn [trace] in Hiff.
  pose proof (setup_event_not_PrimaryInfo _ Ht) as Hn1.
  split.
  - intros Hin. apply Hiff.
    destruct o2 as [[] | err | msg |];
      [specialize (H3 s2 (Run_serve_emits env));
       apply serve_event_not_PrimaryInfo in H3;
       destruct (Run_serve env s2) as [o3 s3 t3] | | |];
      cbn [trace] in *; rewrite !in_app_iff in Hin; cbn in Hin;
      intuition discriminate.
  - intros _ Ha Hb Hc' Hd.
    assert (In EvPrimaryInfo t2) as Hin by (apply Hiff; tauto).
    destruct o2 as [[] | err | msg |];
      [destruct (Run_serve env s2) as [o3 s3 t3] | | |];
      cbn [trace]; rewrite !in_app_iff; tauto.
Qed.

Lemma Run_promotes_iff_witness :
  In EvPrimaryInfo (trace (Run sample_env (fresh sample_config))).
Proof.
  apply (proj2 (Run_promotes_iff sample_env (fresh sample_config)));
    reflexivity.
Defined.

(** ** Promotion before serving *)

Lemma poll_event_quiet (t : list event) :
  Forall (fun e => poll_event e = true) t -> Forall quietP t.
Proof.
  apply Forall_impl. intros e He. unfold quietP. destruct e; try discriminate; reflexivity.
Qed.

Lemma promote_quiet (env : Env) (s : state) :
  Forall quietP (trace (promote env s)) /\
  (c_Store (self s) <> None -> In EvPrimaryInfo (trace (promote env s))).
Proof.
  unfold promote. unfold_monad. cbn.
  destruct (c_Store (self s)); cbn; [| split; [constructor | congruence]].
  destruct (fst (store_PrimaryInfo env)); cbn;
    [split; [repeat constructor | intros _; left; reflexivity] |].
  destruct (client_Handoff env _ _); cbn;
    [split; [repeat constructor | intros _; left; reflexivity] |].
  destruct (promote_wait_events (promote_timeline env) s) as [Hev _].
  apply poll_event_quiet in Hev.
  destruct (promote_wait (promote_timeline env) s) as [o s1 t1]. cbn in *.
  destruct o as [[] | err | msg |]; cbn;
    (split; [| intros _; left; reflexivity]);
    repeat (apply Forall_cons; [reflexivity |]);
    repeat (apply Forall_app; split); try exact Hev; repeat constructor.
Qed.

Lemma Run_sync_promoting (env : Env) (s : state) (st : Store) :
  c_Store (self s) = Some st ->
  Candidate st = true ->
  SkipSync (c_Config (self s)) = false ->
  Lease_Promote (Lease (c_Config (self s))) = true ->
  ready_wait env = Some StoreReady ->
  trace (Run_sync env s)
  = ([EvLog "waiting to connect to cluster" []; EvRecvReady;
      EvLog "connected to cluster, ready" [];
      EvLog "node is a candidate, automatically promoting to primary" []]
     ++ trace (promote env s))%list /\
  (result (Run_sync env s) = Returned tt -> result (promote env s) = Returned tt).
Proof.
  intros Hst Hc Hskip Hp Hr. unfold Run_sync, Candidate in *.
  unfold the_Store, wrapping, log, get_self, emit, bind, ret.
  cbn -[promote]. rewrite Hskip, Hr. cbn -[promote]. rewrite Hp. cbn -[promote].
  rewrite Hst. cbn -[promote]. rewrite Hc. cbn -[promote].
  destruct (promote env s) as [[[] | err | msg |] s1 t1]; cbn;
    (split; [reflexivity | first [reflexivity | discriminate]]).
Qed.

Lemma before_quiet_prefix (A B before after : list event) (e : event) :
  Forall quietP A ->
  (A ++ B)%list = (before ++ e :: after)%list ->
  serves_or_spawns e = true ->
  forall x, In x A -> In x before.
Proof.
  intros HA. revert before. induction HA as [| a A Ha _ IH]; intros before Heq He x Hx.
  - destruct Hx.
  - destruct before as [| b before]; cbn in Heq; injection Heq as <- Heq.
    + unfold quietP in Ha. congruence.
    + destruct Hx as [<- | Hx]; [left; reflexivity | right].
      exact (IH before Heq He x Hx).
Qed.

(** X8.  With [SkipSync] off, the promote flag set and the node configured
    as a candidate, [Run] lets the proxy server serve and starts a
    subcommand only after promotion has succeeded: before every such event
    the store got ready, was asked whether it is primary, and said so,
    there or at a poll after the handoff. *)
Theorem Run_serves_after_promotion (env : Env) (s : state) :
  SkipSync (c_Config (self s)) = false ->
  Lease_Promote (Lease (c_Config (self s))) = true ->
  Lease_Candidate (Lease (c_Config (self s))) = true ->
  forall before e after,
    trace (Run env s) = (before ++ e :: after)%list ->
    serves_or_spawns e = true ->
    In EvRecvReady before /\
    In EvPrimaryInfo before /\
    (fst (store_PrimaryInfo env) = true \/ In (EvIsPrimary true) before).
Proof.
  intros Hskip Hp Hcand before e after Heq He.
  pose proof (Run_start_spec env _ s eq_refl) as Hstart.
  assert (forall t, Forall quietP t -> t = (before ++ e :: after)%list -> False) as Hquiet.
  { intros t Ht ->. apply Forall_app in Ht. destruct Ht as [_ Ht].
    inversion Ht as [| ? ? Hq _]; subst. unfold quietP in Hq. congruence. }
  unfold Run, bind in Heq. destruct (Run_start env s) as [o1 s1 t1].
  unfold started in Hstart. cbn [result final trace] in *.
  destruct o1 as [[] | err | msg |]; cbn [trace] in Heq;
    try (exfalso; apply (Hquiet t1); [| exact Heq];
         eapply Forall_impl; [exact setupP_quietP | exact Hstart]).
  destruct Hstart as [(Hcfg & (st & Hst & Hc) & _) (t & -> & Ht)].
  rewrite <- Hcfg in Hskip, Hp. rewrite Hcand in Hc.
  assert (Forall quietP (t ++ [EvHTTPServe;
                               EvLog "http server listening on: %s" [http_URL env]])%list)
    as Hq1.
  { apply Forall_app. split.
    - eapply Forall_impl; [exact setupP_quietP | exact Ht].
    - repeat constructor. }
  pose proof (Run_sync_wait env s1 Hskip) as Hw.
  destruct (ready_wait env) as [[|] |] eqn:Hr.
  - exfalso. rewrite Hw in Heq. cbn [trace] in Heq.
    eapply Hquiet; [| exact Heq].
    apply Forall_app. split; [exact Hq1 | repeat constructor].
  - clear Hw.
    destruct (Run_sync_promoting env s1 st Hst Hc Hskip Hp Hr) as [Htr Hres].
    destruct (promote_quiet env s1) as [Hpq Hpi].
    pose proof (promote_returned_sound env s1) as Hsound.
    destruct (Run_sync env s1) as [o2 s2 t2]. cbn [trace result] in *. subst t2.
    set (A := ((t ++ [EvHTTPServe;
                      EvLog "http server listening on: %s" [http_URL env]]) ++
               [EvLog "waiting to connect to cluster" []; EvRecvReady;
                EvLog "connected to cluster, ready" [];
                EvLog "node is a candidate, automatically promoting to primary" []] ++
               trace (promote env s1))%list) in *.
    assert (Forall quietP A) as HA.
    { unfold A. repeat first [assumption | apply Forall_app; split].
      repeat (apply Forall_cons; [reflexivity |]). apply Forall_nil. }
    destruct o2 as [[] | err | msg |]; cbn [trace] in Heq;
      try (exfalso; exact (Hquiet A HA Heq)).
    destruct (Run_serve env s2) as [o3 s3 t3]. cbn [trace] in Heq.
    assert (forall x, In x A -> In x before) as Hin.
    { apply (before_quiet_prefix A t3 before after e HA); [| exact He].
      rewrite <- Heq. unfold A. rewrite <- !app_assoc. reflexivity. }
    split; [| split].
    + apply Hin. unfold A. rewrite !in_app_iff. cbn. tauto.
    + apply Hin. unfold A. rewrite !in_app_iff.
      right. right. apply Hpi. congruence.
    + destruct (Hsound (Hres eq_refl)) as [Hpr | (_ & Hpoll & _)];
        [left; exact Hpr | right].
      apply Hin. unfold A. rewrite !in_app_iff. right. right. exact Hpoll.
  - exfalso. rewrite Hw in Heq. cbn [trace] in Heq.
    eapply Hquiet; [| exact Heq].
    apply Forall_app. split; [exact Hq1 | repeat constructor].
Qed.

Lemma Run_serves_after_promotion_witness :
  In EvPrimaryInfo
     (firstn 26 (trace (Run sample_env (fresh sample_config)))).
Proof.
  refine (proj1 (proj2 (Run_serves_after_promotion sample_env (fresh sample_config)
                          eq_refl eq_refl eq_refl
                          (firstn 26 (trace (Run sample_env (fresh sample_config))))
                          EvProxyServe
                          (skipn 27 (trace (Run sample_env (fresh sample_config))))
                          _ eq_refl))).
  vm_compute. reflexivity.
Defined.

(** ** The loop of [execCmds] *)

(** One turn of the loop on an entry that is not passed over. *)
Lemma execCmds_from_run (env : Env) (len i : Z) (config : ExecConfig)
    (rest : list ExecConfig) (s : state) (name : string) (args : list string) :
  shellwords_Parse env (Cmd config) = inl (name :: args) ->
  (IfCandidate config = false \/
   exists st, c_Store (self s) = Some st /\ Candidate st = true) ->
  execCmds_from env len i (config :: rest) s
  = if (i <? len - 1)%Z then
      match cmd_Run env name args with
      | Some err =>
          mkRan (Failed (wrapError "sync cmd" (wrapError "cannot run command" err)))
                (with_cmd (name, args) s)
                [EvLog "executing command: %s %v" [name; fmt_slice args];
                 EvCmdRun name args]
      | None =>
          prepend [EvLog "executing command: %s %v" [name; fmt_slice args];
                   EvCmdRun name args]
                  (execCmds_from env len (i + 1) rest (with_cmd (name, args) s))
      end
    else
      match cmd_Start env name args with
      | Some err =>
          mkRan (Failed (wrapError "background cmd"
                           (wrapError "cannot start exec command" err)))
                (with_cmd (name, args) s)
                [EvLog "starting background subprocess: %s %v" [name; fmt_slice args];
                 EvCmdStart name args]
      | None =>
          prepend [EvLog "starting background subprocess: %s %v" [name; fmt_slice args];
                   EvCmdStart name args; EvGoWait]
                  (execCmds_from env len (i + 1) rest (with_cmd (name, args) s))
      end.
Proof.
  intros Hparse Hrun. cbn [execCmds_from].
  unfold execSyncCmd, execBackgroundCmd, prepend, with_cmd, Candidate in *.
  unfold_monad. cbn. rewrite Hparse. cbn.
  assert ((IfCandidate config = false) \/
          (IfCandidate config = true /\
           exists st, c_Store (self s) = Some st /\ store_candidate st = true)) as Hcase.
  { destruct Hrun as [Hf | Hst]; [left; exact Hf |].
    destruct (IfCandidate config); [right; split; [reflexivity | exact Hst] | left; reflexivity]. }
  destruct Hcase as [-> | (-> & st & -> & ->)]; cbn;
    (destruct (i <? len - 1)%Z; cbn;
     [ destruct (cmd_Run env name args); cbn; [reflexivity |]
     | destruct (cmd_Start env name args); cbn; [reflexivity |] ];
     match goal with
     | |- context [execCmds_from ?e ?n ?j ?l ?s0] =>
         destruct (execCmds_from e n j l s0) as [o s1 t1]
     end; reflexivity).
Qed.

(** One turn of the loop on an entry that is passed over. *)
Lemma execCmds_from_pass (env : Env) (len i : Z) (config : ExecConfig)
    (rest : list ExecConfig) (s : state) (st : Store) (name : string)
    (args : list string) :
  c_Store (self s) = Some st ->
  skipped st config = true ->
  shellwords_Parse env (Cmd config) = inl (name :: args) ->
  execCmds_from env len i (config :: rest) s
  = prepend [EvLog "node is not a candidate, skipping command execution: %s %v"
                   [name; fmt_slice args]]
            (execCmds_from env len (i + 1) rest s).
Proof.
  intros Hst Hskip Hparse. unfold skipped in Hskip.
  apply andb_true_iff in Hskip. destruct Hskip as [Hif Hc].
  apply negb_true_iff in Hc.
  rewrite (execCmds_from_skip env len i config rest s st name args Hst Hc Hif Hparse).
  unfold prepend. unfold_monad. cbn.
  destruct (execCmds_from env len (i + 1) rest s). reflexivity.
Qed.

(** One turn of the loop on an entry whose line does not parse, or parses
    to no word. *)
Lemma execCmds_from_bad (env : Env) (len i : Z) (config : ExecConfig)
    (rest : list ExecConfig) (s : state) :
  (forall err, shellwords_Parse env (Cmd config) = inr err ->
     execCmds_from env len i (config :: rest) s
     = mkRan (Failed (wrapError ("cannot parse exec command[" ++ itoa i ++ "]") err))
             s []) /\
  (shellwords_Parse env (Cmd config) = inl [] ->
     execCmds_from env len i (config :: rest) s
     = mkRan (Panicked "index out of range [0] with length 0") s []).
Proof.
  split; [intros err Hparse | intros Hparse]; cbn [execCmds_from];
    unfold_monad; cbn; rewrite Hparse; reflexivity.
Qed.

Lemma not_skipped_runs (st : Store) (config : ExecConfig) (s : state) :
  c_Store (self s) = Some st ->
  skipped st config = false ->
  IfCandidate config = false \/
  exists st', c_Store (self s) = Some st' /\ Candidate st' = true.
Proof.
  intros Hst Hskip. unfold skipped in Hskip.
  apply andb_false_iff in Hskip. destruct Hskip as [Hif | Hc]; [left; exact Hif |].
  right. exists st. split; [exact Hst |]. apply negb_false_iff in Hc. exact Hc.
Qed.

Lemma due_step (env : Env) (st : Store) (config : ExecConfig)
    (configs : list ExecConfig) :
  due env st (config :: configs)
  = ((if skipped st config then [] else command_of env config) ++ due env st configs)%list.
Proof.
  unfold due. cbn [filter]. destruct (skipped st config); reflexivity.
Qed.

Lemma execCmds_from_due (env : Env) (len : Z) (configs : list ExecConfig) :
  forall i s st,
    c_Store (self s) = Some st ->
    (exists rest,
        due env st configs
        = (exec_calls (trace (execCmds_from env len i configs s)) ++ rest)%list) /\
    (result (execCmds_from env len i configs s) = Returned tt ->
     exec_calls (trace (execCmds_from env len i configs s)) = due env st configs /\
     Forall (parses env) configs).
Proof.
  induction configs as [| config configs IH]; intros i s st Hst.
  - split; [exists []; reflexivity | intros _; split; [reflexivity | constructor]].
  - rewrite due_step.
    destruct (shellwords_Parse env (Cmd config)) as [[| name args] | err] eqn:Hparse.
    + rewrite (proj2 (execCmds_from_bad env len i config configs s) Hparse).
      cbn. split; [eexists; reflexivity | discriminate].
    + assert (parses env config) as Hok by (exists name, args; exact Hparse).
      unfold command_of. rewrite Hparse.
      destruct (skipped st config) eqn:Hskip.
      * rewrite (execCmds_from_pass env len i config configs s st name args
                   Hst Hskip Hparse).
        destruct (IH (i + 1)%Z s st Hst) as [[r Hr] Hret].
        unfold prepend. cbn [trace result app]. unfold exec_calls in *. cbn.
        split; [exists r; exact Hr |].
        intros Ho. destruct (Hret Ho) as [He Hp].
        split; [exact He | constructor; assumption].
      * rewrite (execCmds_from_run env len i config configs s name args Hparse
                   (not_skipped_runs st config s Hst Hskip)).
        destruct (IH (i + 1)%Z (with_cmd (name, args) s) st Hst) as [[r Hr] Hret].
        unfold prepend, exec_calls in *.
        destruct (i <? len - 1)%Z;
          [destruct (cmd_Run env name args) | destruct (cmd_Start env name args)];
          cbn [trace result app]; cbn;
          try (split; [eexists; reflexivity | discriminate]);
          (split; [exists r; rewrite Hr; reflexivity |]);
          intros Ho; destruct (Hret Ho) as [He Hp];
          (split; [rewrite He; reflexivity | constructor; assumption]).
    + rewrite (proj1 (execCmds_from_bad env len i config configs s) err Hparse).
      cbn. split; [eexists; reflexivity | discriminate].
Qed.

(** X9.  On a command whose store is there, the subprocesses [execCmds]
    runs or starts are, in the order of the configuration, the first of
    those of the entries it does not pass over: it stops at the first line
    that does not parse and at the first subprocess that fails, and never
    runs one out of order or twice.  When it returns nil, every line has
    parsed and every entry not passed over has been run or started. *)
Theorem execCmds_runs_in_order (env : Env) (s : state) (st : Store) :
  c_Store (self s) = Some st ->
  (exists rest,
      due env st (Exec (c_Config (self s)))
      = (exec_calls (trace (execCmds env s)) ++ rest)%list) /\
  (result (execCmds env s) = Returned tt ->
   exec_calls (trace (execCmds env s)) = due env st (Exec (c_Config (self s))) /\
   Forall (parses env) (Exec (c_Config (self s)))).
Proof.
  intros Hst.
  pose proof (execCmds_from_due env (Z.of_nat (length (Exec (c_Config (self s)))))
                (Exec (c_Config (self s))) 0%Z s st Hst) as H.
  unfold execCmds. unfold_monad. cbn.
  destruct (execCmds_from env _ 0 (Exec (c_Config (self s))) s) as [o s1 t1].
  exact H.
Qed.

Lemma execCmds_runs_in_order_witness :
  exec_calls (trace (execCmds sample_env (final (initStore (fresh sample_config)))))
  = [("migrate", ["up"]); ("app", ["-addr"; ":8081"])].
Proof.
  refine (proj1 (proj2 (execCmds_runs_in_order sample_env
                          (final (initStore (fresh sample_config))) _ eq_refl)
                       eq_refl)).
Defined.

Lemma execCmds_from_split (env : Env) (len : Z) (configs : list ExecConfig) :
  forall i s st,
    c_Store (self s) = Some st ->
    len = (i + Z.of_nat (length configs))%Z ->
    (exists r, due env st (removelast configs)
               = (ran_calls (trace (execCmds_from env len i configs s)) ++ r)%list) /\
    (exists r, due env st (last_entry configs)
               = (started_calls (trace (execCmds_from env len i configs s)) ++ r)%list).
Proof.
  induction configs as [| config configs IH]; intros i s st Hst Hlen.
  - split; exists []; reflexivity.
  - assert (len = (i + 1 + Z.of_nat (length configs))%Z) as Hlen'
      by (cbn [length] in Hlen; lia).
    destruct configs as [| config2 configs'].
    + (* the last entry *)
      assert ((i <? len - 1)%Z = false) as Hlt
        by (apply Z.ltb_ge; cbn in Hlen; lia).
      change (removelast [config]) with (@nil ExecConfig).
      change (last_entry [config]) with [config].
      rewrite due_step. change (due env st []) with (@nil (string * list string)).
      destruct (shellwords_Parse env (Cmd config)) as [[| name args] | err] eqn:Hparse.
      * rewrite (proj2 (execCmds_from_bad env len i config [] s) Hparse).
        split; eexists; reflexivity.
      * destruct (skipped st config) eqn:Hskip.
        -- rewrite (execCmds_from_pass env len i config [] s st name args
                      Hst Hskip Hparse).
           split; eexists; reflexivity.
        -- rewrite (execCmds_from_run env len i config [] s name args Hparse
                      (not_skipped_runs st config s Hst Hskip)).
           rewrite Hlt. unfold command_of. rewrite Hparse.
           destruct (cmd_Start env name args); split; eexists; reflexivity.
      * rewrite (proj1 (execCmds_from_bad env len i config [] s) err Hparse).
        split; eexists; reflexivity.
    + (* an entry before the last *)
      assert ((i <? len - 1)%Z = true) as Hlt
        by (apply Z.ltb_lt; cbn [length] in Hlen; lia).
      change (removelast (config :: config2 :: configs'))
        with (config :: removelast (config2 :: configs')).
      change (last_entry (config :: config2 :: configs'))
        with (last_entry (config2 :: configs')).
      rewrite due_step.
      destruct (shellwords_Parse env (Cmd config)) as [[| name args] | err] eqn:Hparse.
      * rewrite (proj2 (execCmds_from_bad env len i config _ s) Hparse).
        split; eexists; reflexivity.
      * destruct (skipped st config) eqn:Hskip.
        -- rewrite (execCmds_from_pass env len i config _ s st name args
                      Hst Hskip Hparse).
           destruct (IH (i + 1)%Z s st Hst Hlen') as [[r1 Hr1] [r2 Hr2]].
           unfold prepend. cbn [trace].
           split; [exists r1; exact Hr1 | exists r2; exact Hr2].
        -- rewrite (execCmds_from_run env len i config _ s name args Hparse
                      (not_skipped_runs st config s Hst Hskip)).
           rewrite Hlt. unfold command_of. rewrite Hparse.
           destruct (IH (i + 1)%Z (with_cmd (name, args) s) st Hst Hlen')
             as [[r1 Hr1] [r2 Hr2]].
           destruct (cmd_Run env name args).
           ++ split; eexists; reflexivity.
           ++ unfold prepend. cbn [trace].
              split; [exists r1; rewrite Hr1; reflexivity | exists r2; exact Hr2].
      * rewrite (proj1 (execCmds_from_bad env len i config _ s) err Hparse).
        split; eexists; reflexivity.
Qed.

Lemma due_last_short (env : Env) (st : Store) (configs : list ExecConfig) :
  (length (due env st (last_entry configs)) <= 1)%nat.
Proof.
  assert (forall l, (length l <= 1)%nat -> (length (due env st l) <= 1)%nat) as H.
  { intros [| c [| c2 l]] Hl; cbn in Hl; try lia; [cbn; lia |].
    rewrite due_step. unfold due. cbn. rewrite app_nil_r.
    destruct (skipped st c); [cbn; lia |].
    unfold command_of. destruct (shellwords_Parse env (Cmd c)) as [[| n a] | e]; cbn; lia. }
  apply H. unfold last_entry. rewrite length_skipn. lia.
Qed.

(** X10.  On a command whose store is there, [execCmds] runs to their end
    only subprocesses of entries before the last, in order, and starts in
    the background only the subprocess of the last entry: at most one is
    started, and none when the last entry is passed over. *)
Theorem execCmds_only_last_in_background (env : Env) (s : state) (st : Store) :
  c_Store (self s) = Some st ->
  (exists r, due env st (removelast (Exec (c_Config (self s))))
             = (ran_calls (trace (execCmds env s)) ++ r)%list) /\
  (exists r, due env st (last_entry (Exec (c_Config (self s))))
             = (started_calls (trace (execCmds env s)) ++ r)%list) /\
  (length (started_calls (trace (execCmds env s))) <= 1)%nat /\
  (forall config,
      last_entry (Exec (c_Config (self s))) = [config] ->
      skipped st config = true ->
      started_calls (trace (execCmds env s)) = []).
Proof.
  intros Hst.
  pose proof (execCmds_from_split env (Z.of_nat (length (Exec (c_Config (self s)))))
                (Exec (c_Config (self s))) 0%Z s st Hst ltac:(lia)) as [H1 [r2 H2]].
  pose proof (due_last_short env st (Exec (c_Config (self s)))) as Hshort.
  unfold execCmds. unfold_monad. cbn.
  destruct (execCmds_from env _ 0 (Exec (c_Config (self s))) s) as [o s1 t1].
  cbn [trace] in *.
  split; [exact H1 |]. split; [exists r2; exact H2 |]. split.
  - rewrite H2, length_app in Hshort. lia.
  - intros config Hlast Hskip. rewrite Hlast in H2.
    rewrite due_step, Hskip in H2. cbn in H2.
    destruct (started_calls t1); [reflexivity | discriminate].
Qed.

Lemma execCmds_only_last_in_background_witness :
  (length (started_calls
             (trace (execCmds sample_env (final (initStore (fresh sample_config))))))
   <= 1)%nat.
Proof.
  exact (proj1 (proj2 (proj2 (execCmds_only_last_in_background sample_env
                                (final (initStore (fresh sample_config))) _ eq_refl)))).
Defined.

(** ** The proxy server *)

Lemma compilePassthroughs_find (env : Env) (exprs : list string) :
  forall acc s,
    compilePassthroughs env exprs acc s
    = match first_refused env exprs with
      | Some e =>
          mkRan (Failed (errorString ("cannot parse proxy passthrough expression: "
                                      ++ strconv_Quote env e))) s []
      | None => mkRan (Returned (acc ++ exprs)%list) s []
      end.
Proof.
  unfold first_refused.
  induction exprs as [| e exprs IH]; intros acc s; cbn [compilePassthroughs find].
  - rewrite app_nil_r. reflexivity.
  - destruct (http_CompileMatch env e); cbn [is_set].
    + reflexivity.
    + rewrite IH, <- app_assoc. reflexivity.
Qed.

Lemma initProxyServer_run (env : Env) (s : state) :
  initProxyServer env s
  = if Proxy_Target (Proxy (c_Config (self s))) =? "" then
      mkRan (Returned tt) s [EvLog "no proxy target set, skipping proxy" []]
    else
      match first_refused env (Proxy_Passthrough (Proxy (c_Config (self s)))) with
      | Some e =>
          mkRan (Failed (errorString ("cannot parse proxy passthrough expression: "
                                      ++ strconv_Quote env e))) s []
      | None =>
          match proxy_Listen env with
          | Some err =>
              mkRan (Failed err) s [EvProxyListen (configured_proxy (c_Config (self s)))]
          | None =>
              mkRan (Returned tt)
                    {| self := set_ProxyServer (configured_proxy (c_Config (self s)))
                                               (self s);
                       expvarOnce := expvarOnce s |}
                    [EvProxyListen (configured_proxy (c_Config (self s)))]
          end
      end.
Proof.
  unfold initProxyServer. unfold bind at 1. unfold get_self.
  destruct (Proxy_Target (Proxy (c_Config (self s))) =? ""); [reflexivity |].
  unfold bind at 1. rewrite compilePassthroughs_find.
  destruct (first_refused env _); [reflexivity |].
  unfold_monad. cbn. destruct (proxy_Listen env); reflexivity.
Qed.

(** X11.  [initProxyServer] without a proxy target logs that it skips the
    proxy and builds none.  With a target it compiles the passthrough
    expressions in order: at the first one refused it returns the error
    naming that expression, without listening; when none is refused it has
    the server listen with the fields of the config and the passthroughs in
    the order of the config, returns a listen error as it is, and sets
    [ProxyServer] only when listening succeeded. *)
Theorem initProxyServer_passthroughs (env : Env) (s : state) :
  (Proxy_Target (Proxy (c_Config (self s))) = "" ->
   initProxyServer env s
   = mkRan (Returned tt) s [EvLog "no proxy target set, skipping proxy" []]) /\
  (Proxy_Target (Proxy (c_Config (self s))) <> "" ->
   forall e,
     first_refused env (Proxy_Passthrough (Proxy (c_Config (self s)))) = Some e ->
     initProxyServer env s
     = mkRan (Failed (errorString ("cannot parse proxy passthrough expression: "
                                   ++ strconv_Quote env e))) s []) /\
  (Proxy_Target (Proxy (c_Config (self s))) <> "" ->
   first_refused env (Proxy_Passthrough (Proxy (c_Config (self s)))) = None ->
   trace (initProxyServer env s)
   = [EvProxyListen (configured_proxy (c_Config (self s)))] /\
   match proxy_Listen env with
   | Some err =>
       result (initProxyServer env s) = Failed err /\
       final (initProxyServer env s) = s
   | None =>
       result (initProxyServer env s) = Returned tt /\
       self (final (initProxyServer env s))
       = set_ProxyServer (configured_proxy (c_Config (self s))) (self s)
   end).
Proof.
  rewrite initProxyServer_run.
  split; [| split].
  - intros ->. reflexivity.
  - intros Ht e He. apply String.eqb_neq in Ht. rewrite Ht, He. reflexivity.
  - intros Ht Hnone. apply String.eqb_neq in Ht. rewrite Ht, Hnone.
    destruct (proxy_Listen env); cbn; repeat split.
Qed.

(** ** The start of [Run], case by case *)

Ltac break_flow :=
  match goal with
  | |- context [match ?x with _ => _ end] =>
      lazymatch x with
      | context [match _ with _ => _ end] => fail
      | (_ >? _)%Z => fail
      | _ => destruct x eqn:?
      end
  end.

Ltac start_cases tac :=
  unfold Run_start, initStore, initHTTPServer, initConsul, openStore, initFileSystem,
    expvarOnce_Do;
  unfold_monad; cbn -[initProxyServer itoa fmt_bool];
  repeat (first [ tac | rewrite initProxyServer_run | break_flow ];
          cbn -[initProxyServer itoa fmt_bool] in * ).

Lemma Run_stops_with_start (env : Env) (s : state) (err : error) :
  result (Run_start env s) = Failed err -> Run env s = Run_start env s.
Proof.
  unfold Run. unfold bind at 1.
  destruct (Run_start env s) as [[[] | err' | msg |] s1 t1]; cbn;
    try discriminate; reflexivity.
Qed.

Lemma Run_late_tail (env : Env) (s : state) :
  exists late,
    trace (Run env s) = (trace (Run_start env s) ++ late)%list /\
    Forall (fun e => late_event e = true) late.
Proof.
  set (J := fun (t : list event) (_ : state) => Forall (fun e => late_event e = true) t).
  assert (forall e, late_event e = true -> keeps J (emit e)) as J_emit.
  { intros e He t0 s0 H. cbn. apply Forall_app. split; [exact H |].
    constructor; [exact He | constructor]. }
  assert (forall v, keeps J (modify (set_cmd v))) as J_cmd.
  { intros v t0 s0 H. cbn. rewrite app_nil_r. exact H. }
  assert (keeps J (Run_sync env ;; Run_serve env)) as Hlate.
  { apply keeps_bind; [apply keeps_Run_sync; exact J_emit |].
    intros _. apply keeps_Run_serve; [exact J_emit | exact J_cmd]. }
  unfold Run. unfold bind at 1.
  destruct (Run_start env s) as [[[] | err | msg |] s1 t1]; cbn [trace].
  - specialize (Hlate [] s1 (Forall_nil _)). cbn [app] in Hlate.
    destruct ((Run_sync env ;; Run_serve env) s1) as [o s2 t2]. cbn [trace] in *.
    exists t2. split; [reflexivity | exact Hlate].
  - exists []. rewrite app_nil_r. split; [reflexivity | constructor].
  - exists []. rewrite app_nil_r. split; [reflexivity | constructor].
  - exists []. rewrite app_nil_r. split; [reflexivity | constructor].
Qed.

Lemma Run_start_invalid_lease_type (env : Env) (s : state) :
  IsValidLeaseType (Lease_Type (Lease (c_Config (self s)))) = false ->
  (exists srv, In (EvHTTPListen srv) (trace (Run_start env s))) /\
  Forall (fun e => listen_event e = true) (trace (Run_start env s)) /\
  (exists err, result (Run_start env s) = Failed err) /\
  c_Leaser (self (final (Run_start env s))) = c_Leaser (self s) /\
  (http_Listen env = None ->
   Proxy_Target (Proxy (c_Config (self s))) = "" \/
   (first_refused env (Proxy_Passthrough (Proxy (c_Config (self s)))) = None /\
    proxy_Listen env = None) ->
   result (Run_start env s)
   = Failed (errorString ("invalid lease type: "
                          ++ strconv_Quote env (Lease_Type (Lease (c_Config (self s))))))).
Proof.
  intros H. unfold IsValidLeaseType in H.
  destruct (Lease_Type (Lease (c_Config (self s))) =? LeaseTypeConsul) eqn:Hc;
    [discriminate |].
  destruct (Lease_Type (Lease (c_Config (self s))) =? LeaseTypeStatic) eqn:Hs;
    [discriminate |].
  clear H.
  start_cases ltac:(first [rewrite Hc | rewrite Hs]).
  all: repeat split.
  all: try (eexists; left; reflexivity).
  all: try (eexists; right; left; reflexivity).
  all: try all_events.
  all: try (eexists; reflexivity).
  all: try (intros Hl Hp; try discriminate; bool_facts;
            destruct Hp as [Hp | [Hp1 Hp2]]; congruence).
Qed.

(** X12.  With a lease type that is neither consul nor static, [Run]
    returns an error after the HTTP server was told to listen and before it
    builds a leaser, opens the store or mounts: it emits nothing but the
    version line, log lines and the listen calls, and leaves [Leaser] as it
    was.  When the servers came up the error is the invalid lease type
    error, with the type quoted. *)
Theorem Run_invalid_lease_type (env : Env) (s : state) :
  IsValidLeaseType (Lease_Type (Lease (c_Config (self s)))) = false ->
  (exists srv, In (EvHTTPListen srv) (trace (Run env s))) /\
  Forall (fun e => listen_event e = true) (trace (Run env s)) /\
  (exists err, result (Run env s) = Failed err) /\
  c_Leaser (self (final (Run env s))) = c_Leaser (self s) /\
  (http_Listen env = None ->
   Proxy_Target (Proxy (c_Config (self s))) = "" \/
   (first_refused env (Proxy_Passthrough (Proxy (c_Config (self s)))) = None /\
    proxy_Listen env = None) ->
   result (Run env s)
   = Failed (errorString ("invalid lease type: "
                          ++ strconv_Quote env (Lease_Type (Lease (c_Config (self s))))))).
Proof.
  intros H.
  destruct (Run_start_invalid_lease_type env s H) as (H1 & H2 & [err H3] & H4 & H5).
  rewrite (Run_stops_with_start env s err H3).
  repeat split; try assumption. exists err. exact H3.
Qed.

Lemma Run_invalid_lease_type_witness :
  result (Run sample_env (fresh (sample_config_of_type "etcd")))
  = Failed (errorString "invalid lease type: 'etcd'").
Proof.
  apply (proj2 (proj2 (proj2 (proj2
           (Run_invalid_lease_type sample_env (fresh (sample_config_of_type "etcd"))
                                   eq_refl))))).
  - reflexivity.
  - right. split; reflexivity.
Defined.

Lemma late_not_consul_step (e : event) :
  late_event e = true -> consul_step e = false.
Proof. destruct e; cbn; congruence. Qed.

Lemma Run_start_store_open (env : Env) (s : state) (st : Store) :
  In (EvStoreOpen st) (trace (Run_start env s)) ->
  exists l,
    st = with_Leaser (Some l) (configured_store (c_Config (self s))) /\
    ((Lease_Type (Lease (c_Config (self s))) = LeaseTypeStatic /\
      l = StaticLeaser (Lease_Candidate (Lease (c_Config (self s))))
                       (Lease_Hostname (Lease (c_Config (self s))))
                       (Lease_AdvertiseURL (Lease (c_Config (self s)))) /\
      Forall (fun e => consul_step e = false) (trace (Run_start env s))) \/
     (Lease_Type (Lease (c_Config (self s))) = LeaseTypeConsul /\
      leaser_Open env = None /\
      exists cl, l = ConsulLeaser cl /\
                 In (EvConsulOpen cl) (trace (Run_start env s)))).
Proof.
  start_cases ltac:(fail).
  all: intros Hin; repeat (destruct Hin as [Hin | Hin]; try discriminate Hin);
    try contradiction.
  all: injection Hin as <-.
  all: eexists; (split; [reflexivity |]).
  all: bool_facts.
  all: first
         [ left; split; [assumption |]; split; [reflexivity | all_events]
         | right; split; [assumption |]; split; [reflexivity |];
           eexists; split; [reflexivity |];
           cbn; repeat first [left; reflexivity | right] ].
Qed.

(** X13.  The store [Run] opens is the store of the config with a leaser
    in place, never without one.  With the static lease type the leaser is
    the static leaser of the configured candidate flag, hostname and
    advertise URL, and [Run] neither asks for the hostname nor opens a
    consul leaser; with the consul lease type it is the consul leaser that
    [Run] opened, and opened without error. *)
Theorem Run_opens_store_with_leaser (env : Env) (s : state) (st : Store) :
  In (EvStoreOpen st) (trace (Run env s)) ->
  exists l,
    st = with_Leaser (Some l) (configured_store (c_Config (self s))) /\
    ((Lease_Type (Lease (c_Config (self s))) = LeaseTypeStatic /\
      l = StaticLeaser (Lease_Candidate (Lease (c_Config (self s))))
                       (Lease_Hostname (Lease (c_Config (self s))))
                       (Lease_AdvertiseURL (Lease (c_Config (self s)))) /\
      Forall (fun e => consul_step e = false) (trace (Run env s))) \/
     (Lease_Type (Lease (c_Config (self s))) = LeaseTypeConsul /\
      leaser_Open env = None /\
      exists cl, l = ConsulLeaser cl /\
                 In (EvConsulOpen cl) (trace (Run env s)))).
Proof.
  destruct (Run_late_tail env s) as (late & -> & Hlate).
  intros Hin. apply in_app_or in Hin. destruct Hin as [Hin | Hin].
  - destruct (Run_start_store_open env s st Hin)
      as (l & -> & [(Ht & -> & Hno) | (Ht & Ho & cl & -> & Hcl)]).
    + eexists. split; [reflexivity |]. left.
      split; [exact Ht |]. split; [reflexivity |].
      apply Forall_app. split; [exact Hno |].
      eapply Forall_impl; [| exact Hlate]. exact late_not_consul_step.
    + eexists. split; [reflexivity |]. right.
      split; [exact Ht |]. split; [exact Ho |].
      exists cl. split; [reflexivity |]. apply in_or_app. left. exact Hcl.
  - exfalso. rewrite Forall_forall in Hlate. specialize (Hlate _ Hin).
    discriminate Hlate.
Qed.

Lemma Run_opens_store_with_leaser_witness :
  exists l,
    with_Leaser (Some (ConsulLeaser sample_leaser)) (configured_store sample_config)
    = with_Leaser (Some l) (configured_store sample_config).
Proof.
  destruct (Run_opens_store_with_leaser sample_env (fresh sample_config)
              (with_Leaser (Some (ConsulLeaser sample_leaser))
                           (configured_store sample_config)))
    as (l & Hl & _).
  - cbn. repeat first [left; reflexivity | right].
  - exists l. exact Hl.
Defined.

(** ** The consul leaser, when something goes wrong *)

(** X14.  [initConsul] asks the operating system for the hostname exactly
    when the config has none, and returns a failure of that lookup as it
    is, before any leaser is made.  A leaser that does not open gives the
    error wrapped as a consul connection error, after the one attempt.  On
    every outcome but nil the command is left as it was, so [Leaser] is
    set only by a successful call.  An injected advertise URL that is not
    empty is the one the leaser gets, whatever the config says. *)
Theorem initConsul_failures (env : Env) (s : state) :
  (In EvHostname (trace (initConsul env s))
   <-> Lease_Hostname (Lease (c_Config (self s))) = "") /\
  (forall err,
     resolved_hostname env (c_Config (self s)) = inr err ->
     initConsul env s = mkRan (Failed err) s [EvHostname]) /\
  (forall err l,
     leaser_Open env = Some err ->
     In (EvConsulOpen l) (trace (initConsul env s)) ->
     initConsul env s
     = mkRan (Failed (wrapError "cannot connect to consul" err)) s
             ((if Lease_Hostname (Lease (c_Config (self s))) =? ""
               then [EvHostname] else []) ++ [EvConsulOpen l])%list) /\
  (result (initConsul env s) <> Returned tt -> final (initConsul env s) = s) /\
  (forall u l,
     c_AdvertiseURLFn (self s) = Some u -> u <> "" ->
     In (EvConsulOpen l) (trace (initConsul env s)) ->
     leaser_AdvertiseURL l = u).
Proof.
  unfold resolved_hostname.
  unfold initConsul, consul_NewLeaser, set_TTL, set_LockDelay. unfold_monad.
  split; [| split; [| split; [| split]]].
  - by_cases; bool_facts; split; intros Hx; try assumption; try congruence;
      try (left; reflexivity);
      repeat match goal with
             | H : _ \/ _ |- _ => destruct H
             | H : False |- _ => destruct H
             end; try discriminate; congruence.
  - intros err. by_cases; intros Hx; try discriminate;
      injection Hx as <-; reflexivity.
  - intros err l Ho. rewrite Ho.
    by_cases; intros Hx;
      repeat match goal with
             | H : _ \/ _ |- _ => destruct H
             | H : False |- _ => destruct H
             end; try discriminate;
      match goal with H : EvConsulOpen _ = EvConsulOpen _ |- _ => injection H as <- end;
      reflexivity.
  - by_cases; intros Hx; first [reflexivity | congruence].
  - intros u l Hu Hne. rewrite Hu.
    apply String.eqb_neq in Hne. rewrite Hne.
    by_cases; intros Hx;
      repeat match goal with
             | H : _ \/ _ |- _ => destruct H
             | H : False |- _ => destruct H
             end; try discriminate;
      match goal with H : EvConsulOpen _ = EvConsulOpen _ |- _ => injection H as <- end;
      reflexivity.
Qed.

(** ** An exec entry with no words *)

Lemma execCmds_from_panics_only_on_empty (env : Env) (len : Z) (st : Store)
    (msg : string) (configs : list ExecConfig) :
  forall i s,
    c_Store (self s) = Some st ->
    result (execCmds_from env len i configs s) = Panicked msg ->
    msg = "index out of range [0] with length 0" /\
    exists config, In config configs /\ shellwords_Parse env (Cmd config) = inl [].
Proof.
  induction configs as [| config configs IH]; intros i s Hst Hres.
  - discriminate Hres.
  - destruct (shellwords_Parse env (Cmd config)) as [[| name args] | err] eqn:Hparse.
    + rewrite (proj2 (execCmds_from_bad env len i config configs s) Hparse) in Hres.
      injection Hres as <-. split; [reflexivity |].
      exists config. split; [left; reflexivity | exact Hparse].
    + assert (forall t s', c_Store (self s') = Some st ->
                result (prepend t (execCmds_from env len (i + 1) configs s'))
                = Panicked msg ->
                msg = "index out of range [0] with length 0" /\
                exists config', In config' (config :: configs) /\
                                shellwords_Parse env (Cmd config') = inl []) as Hrec.
      { intros t s' Hst' Hr. cbn in Hr.
        destruct (IH _ _ Hst' Hr) as (Hm & c' & Hin & Hc').
        split; [exact Hm |]. exists c'. split; [right; exact Hin | exact Hc']. }
      destruct (skipped st config) eqn:Hskip.
      * rewrite (execCmds_from_pass env len i config configs s st name args
                   Hst Hskip Hparse) in Hres.
        exact (Hrec _ _ Hst Hres).
      * rewrite (execCmds_from_run env len i config configs s name args Hparse
                   (not_skipped_runs st config s Hst Hskip)) in Hres.
        destruct (i <? len - 1)%Z;
          [destruct (cmd_Run env name args) | destruct (cmd_Start env name args)];
          try discriminate Hres; exact (Hrec _ (with_cmd (name, args) s) Hst Hres).
    + rewrite (proj1 (execCmds_from_bad env len i config configs s) err Hparse) in Hres.
      discriminate Hres.
Qed.

Lemma execCmds_from_reaches_empty (env : Env) (len : Z) (st : Store)
    (config : ExecConfig) (after : list ExecConfig) (before : list ExecConfig) :
  forall i s,
    c_Store (self s) = Some st ->
    len = (i + Z.of_nat (length before) + 1 + Z.of_nat (length after))%Z ->
    shellwords_Parse env (Cmd config) = inl [] ->
    Forall (parses env) before ->
    Forall (fun c => cmd_Run env (fst c) (snd c) = None) (due env st before) ->
    result (execCmds_from env len i (before ++ config :: after) s)
    = Panicked "index out of range [0] with length 0" /\
    exec_calls (trace (execCmds_from env len i (before ++ config :: after) s))
    = due env st before.
Proof.
  induction before as [| c before IH]; intros i s Hst Hlen Hempty Hparses Hok.
  - cbn [app]. rewrite (proj2 (execCmds_from_bad env len i config after s) Hempty).
    split; reflexivity.
  - cbn [app]. apply Forall_cons_iff in Hparses.
    destruct Hparses as [[name [args Hparse]] Hrest].
    assert (len = (i + 1 + Z.of_nat (length before) + 1 + Z.of_nat (length after))%Z)
      as Hlen' by (cbn [length] in Hlen; lia).
    rewrite due_step in *.
    destruct (skipped st c) eqn:Hskip.
    + rewrite (execCmds_from_pass env len i c _ s st name args Hst Hskip Hparse).
      destruct (IH (i + 1)%Z s Hst Hlen' Hempty Hrest Hok) as [Hr Ht].
      unfold prepend. cbn [result trace]. split; [exact Hr |].
      cbn [app exec_calls flat_map]. exact Ht.
    + rewrite (execCmds_from_run env len i c _ s name args Hparse
                 (not_skipped_runs st c s Hst Hskip)).
      assert ((i <? len - 1)%Z = true) as -> by (apply Z.ltb_lt; lia).
      unfold command_of in *. rewrite Hparse in *. cbn [app] in Hok.
      apply Forall_cons_iff in Hok. destruct Hok as [Hrun Hok']. cbn [fst snd] in Hrun.
      rewrite Hrun.
      destruct (IH (i + 1)%Z (with_cmd (name, args) s) Hst Hlen' Hempty Hrest Hok')
        as [Hr Ht].
      unfold prepend. cbn [result trace]. split; [exact Hr |].
      cbn [app exec_calls flat_map]. cbn [app]. f_equal. exact Ht.
Qed.

(** X15.  On a command whose store is there, [execCmds] panics only with
    an index out of range, and only when the command line of some exec
    entry parses to no word at all.  It does so whenever it comes to such
    an entry, that is when the entries before it parse and their commands
    run without error, and also when the entry would have been passed over
    on a node that is not a candidate: the entry is split and indexed
    before the candidate check.  The commands before it have run by then. *)
Theorem execCmds_panics_on_empty_command (env : Env) (s : state) (st : Store) :
  c_Store (self s) = Some st ->
  (forall msg,
     result (execCmds env s) = Panicked msg ->
     msg = "index out of range [0] with length 0" /\
     exists config, In config (Exec (c_Config (self s))) /\
                    shellwords_Parse env (Cmd config) = inl []) /\
  (forall before config after,
     Exec (c_Config (self s)) = (before ++ config :: after)%list ->
     shellwords_Parse env (Cmd config) = inl [] ->
     Forall (parses env) before ->
     Forall (fun c => cmd_Run env (fst c) (snd c) = None) (due env st before) ->
     result (execCmds env s) = Panicked "index out of range [0] with length 0" /\
     exec_calls (trace (execCmds env s)) = due env st before).
Proof.
  intros Hst.
  assert (execCmds env s
          = execCmds_from env (Z.of_nat (length (Exec (c_Config (self s))))) 0
                          (Exec (c_Config (self s))) s) as ->.
  { unfold execCmds. unfold_monad. cbn.
    destruct (execCmds_from env _ 0 (Exec (c_Config (self s))) s). reflexivity. }
  split.
  - intros msg Hres.
    exact (execCmds_from_panics_only_on_empty env _ st msg _ 0%Z s Hst Hres).
  - intros before config after Hexec Hempty Hparses Hok. rewrite Hexec.
    apply (execCmds_from_reaches_empty env _ st config after before 0%Z s Hst);
      try assumption.
    rewrite length_app. cbn [length]. lia.
Qed.

Lemma execCmds_panics_on_empty_command_witness :
  result (execCmds sample_env
            (final (initStore
                      (fresh (sample_config_with false false
                                [ {| Cmd := "migrate up"; IfCandidate := false |};
                                  {| Cmd := ""; IfCandidate := true |};
                                  {| Cmd := "app"; IfCandidate := false |} ])))))
  = Panicked "index out of range [0] with length 0".
Proof.
  refine (proj1 (proj2 (execCmds_panics_on_empty_command sample_env
                          (final (initStore
                                    (fresh (sample_config_with false false
                                              [ {| Cmd := "migrate up"; IfCandidate := false |};
                                                {| Cmd := ""; IfCandidate := true |};
                                                {| Cmd := "app"; IfCandidate := false |} ]))))
                          _ eq_refl)
                  [ {| Cmd := "migrate up"; IfCandidate := false |} ]
                  {| Cmd := ""; IfCandidate := true |}
                  [ {| Cmd := "app"; IfCandidate := false |} ]
                  eq_refl eq_refl _ _)).
  - constructor; [| constructor]. exists "migrate", ["up"]. reflexivity.
  - cbn. constructor; [reflexivity | constructor].
Defined.

(** ** The order of the steps of [Run] *)

Lemma milestones_app (a b : list event) :
  milestones (a ++ b) = (milestones a ++ milestones b)%list.
Proof. apply flat_map_app. Qed.

Lemma ascending_app (k : nat) (a b : list nat) :
  ascending a = true -> ascending b = true ->
  Forall (fun n => (n <= k)%nat) a -> Forall (fun n => (k <= n)%nat) b ->
  ascending (a ++ b) = true.
Proof.
  intros Ha Hb Hak Hbk. induction a as [| x a IH]; [exact Hb |].
  cbn [ascending app] in *. apply andb_true_iff in Ha. destruct Ha as [Hx Ha].
  apply Forall_cons_iff in Hak. destruct Hak as [Hxk Hak].
  apply andb_true_iff. split; [| apply IH; assumption].
  rewrite forallb_app. apply andb_true_iff. split; [exact Hx |].
  apply forallb_forall. intros y Hy. apply Nat.leb_le.
  rewrite Forall_forall in Hbk. specialize (Hbk y Hy). lia.
Qed.

Lemma in_order_app (lo k hi : nat) (a b : list event) :
  (lo <= k <= hi)%nat ->
  in_order lo k a -> in_order k hi b -> in_order lo hi (a ++ b).
Proof.
  intros Hk [Ha Hab] [Hb Hbb]. unfold in_order. rewrite milestones_app. split.
  - apply (ascending_app k); try assumption.
    + eapply Forall_impl; [| exact Hab]. cbn. intros; lia.
    + eapply Forall_impl; [| exact Hbb]. cbn. intros; lia.
  - apply Forall_app. split.
    + eapply Forall_impl; [| exact Hab]. cbn. intros; lia.
    + eapply Forall_impl; [| exact Hbb]. cbn. intros; lia.
Qed.

Lemma stretch_quiet {A} (lo hi : nat) (m : M A) :
  (forall s, trace (m s) = []) -> stretch lo hi m.
Proof.
  intros H s. rewrite H. split; [reflexivity | constructor].
Qed.

Lemma stretch_emit (lo hi k : nat) (e : event) :
  milestone e = Some k -> (lo <= k <= hi)%nat -> stretch lo hi (emit e).
Proof.
  intros He Hk s. unfold in_order, milestones. cbn. rewrite He. cbn.
  split; [reflexivity |]. constructor; [exact Hk | constructor].
Qed.

Lemma stretch_log (lo hi : nat) (format : string) (args : list string) :
  stretch lo hi (log format args).
Proof.
  intros s. split; [reflexivity | constructor].
Qed.

Lemma stretch_bind {A B} (lo k hi : nat) (m : M A) (f : A -> M B) :
  (lo <= k <= hi)%nat ->
  stretch lo k m -> (forall a, stretch k hi (f a)) -> stretch lo hi (bind m f).
Proof.
  intros Hk Hm Hf s. unfold bind. specialize (Hm s).
  destruct (m s) as [[a | err | msg |] s1 t1]; cbn [trace] in *.
  - specialize (Hf a s1). destruct (f a s1) as [o s2 t2]. cbn [trace] in *.
    apply (in_order_app lo k hi); assumption.
  - rewrite <- (app_nil_r t1).
    apply (in_order_app lo k hi); [lia | exact Hm | split; [reflexivity | constructor]].
  - rewrite <- (app_nil_r t1).
    apply (in_order_app lo k hi); [lia | exact Hm | split; [reflexivity | constructor]].
  - rewrite <- (app_nil_r t1).
    apply (in_order_app lo k hi); [lia | exact Hm | split; [reflexivity | constructor]].
Qed.

Lemma stretch_wrapping {A} (lo hi : nat) (msg : string) (m : M A) :
  stretch lo hi m -> stretch lo hi (wrapping msg m).
Proof.
  intros Hm s. specialize (Hm s). unfold wrapping.
  destruct (m s) as [[a | err | p |] s1 t1]; exact Hm.
Qed.

Lemma stretch_defer {A} (lo k hi : nat) (d : M unit) (body : M A) :
  (lo <= k <= hi)%nat ->
  stretch lo k body -> stretch k hi d -> stretch lo hi (defer d body).
Proof.
  intros Hk Hb Hd s. specialize (Hb s). unfold defer.
  destruct (body s) as [[a | err | p |] s1 t1]; cbn [trace] in *;
    try (specialize (Hd s1); destruct (d s1) as [o s2 t2]; cbn [trace] in *;
         apply (in_order_app lo k hi); assumption).
  rewrite <- (app_nil_r t1).
  apply (in_order_app lo k hi); [lia | exact Hb | split; [reflexivity | constructor]].
Qed.

Ltac quiet_step :=
  apply stretch_quiet; intros ?; unfold_monad; cbn;
  repeat break_goal; reflexivity.

Lemma promote_wait_in_order (timeline : list happening) :
  stretch 12 12 (promote_wait timeline).
Proof.
  induction timeline as [| [| b |] timeline IH]; cbn [promote_wait].
  - quiet_step.
  - exact IH.
  - apply (stretch_bind 12 12 12); [lia | apply (stretch_emit 12 12 12); [reflexivity | lia] |].
    intros _.
    apply (stretch_bind 12 12 12); [lia | apply (stretch_emit 12 12 12); [reflexivity | lia] |].
    intros _. destruct b; [quiet_step | exact IH].
  - apply (stretch_bind 12 12 12); [lia | apply (stretch_emit 12 12 12); [reflexivity | lia] |].
    intros _. quiet_step.
Qed.

Lemma promote_in_order (env : Env) : stretch 10 12 (promote env).
Proof.
  unfold promote.
  apply (stretch_bind 10 10 12); [lia | quiet_step | intros _].
  apply (stretch_bind 10 10 12);
    [lia | apply (stretch_emit 10 10 10); [reflexivity | lia] | intros _].
  destruct (fst (store_PrimaryInfo env)); [apply stretch_log |].
  apply (stretch_bind 10 11 12);
    [lia | apply (stretch_emit 10 11 11); [reflexivity | lia] | intros _].
  apply (stretch_bind 11 11 12); [lia | quiet_step | intros _].
  apply (stretch_bind 11 12 12);
    [lia | apply (stretch_emit 11 12 12); [reflexivity | lia] | intros _].
  apply (stretch_defer 12 12 12);
    [lia | | apply (stretch_emit 12 12 12); [reflexivity | lia]].
  apply (stretch_bind 12 12 12);
    [lia | apply (stretch_emit 12 12 12); [reflexivity | lia] | intros _].
  apply (stretch_defer 12 12 12);
    [lia | apply promote_wait_in_order | apply (stretch_emit 12 12 12); [reflexivity | lia]].
Qed.

Lemma Run_sync_in_order (env : Env) : stretch 9 12 (Run_sync env).
Proof.
  unfold Run_sync.
  apply (stretch_bind 9 9 12); [lia | quiet_step | intros c].
  destruct (SkipSync (c_Config c)); [apply stretch_log |].
  apply (stretch_bind 9 9 12); [lia | apply stretch_log | intros _].
  apply (stretch_bind 9 9 12); [lia | | intros _].
  - destruct (ready_wait env) as [[|] |].
    + apply (stretch_bind 9 9 9);
        [lia | apply (stretch_emit 9 9 9); [reflexivity | lia] | intros _; quiet_step].
    + apply (stretch_bind 9 9 9);
        [lia | apply (stretch_emit 9 9 9); [reflexivity | lia]
        | intros _; apply stretch_log].
    + quiet_step.
  - destruct (Lease_Promote (Lease (c_Config c))); [| quiet_step].
    apply (stretch_bind 9 9 12); [lia | quiet_step | intros st].
    destruct (Candidate st); [| apply stretch_log].
    apply (stretch_bind 9 10 12); [lia | apply stretch_log | intros _].
    apply stretch_wrapping, promote_in_order.
Qed.

Lemma execCmds_from_in_order (env : Env) (len : Z) (configs : list ExecConfig) :
  forall i, stretch 14 14 (execCmds_from env len i configs).
Proof.
  induction configs as [| config rest IH]; intros i; cbn [execCmds_from].
  - quiet_step.
  - apply (stretch_bind 14 14 14); [lia | quiet_step | intros [| name args]];
      [quiet_step |].
    apply (stretch_bind 14 14 14); [lia | | intros skip].
    + destruct (IfCandidate config); quiet_step.
    + destruct skip.
      * apply (stretch_bind 14 14 14); [lia | apply stretch_log | intros _; apply IH].
      * apply (stretch_bind 14 14 14); [lia | | intros _; apply IH].
        destruct (i <? len - 1)%Z; apply stretch_wrapping;
          unfold execSyncCmd, execBackgroundCmd.
        -- apply (stretch_bind 14 14 14); [lia | apply stretch_log | intros _].
           apply (stretch_bind 14 14 14); [lia | quiet_step | intros _].
           apply (stretch_bind 14 14 14);
             [lia | apply (stretch_emit 14 14 14); [reflexivity | lia] | intros _].
           quiet_step.
        -- apply (stretch_bind 14 14 14); [lia | apply stretch_log | intros _].
           apply (stretch_bind 14 14 14); [lia | quiet_step | intros _].
           apply (stretch_bind 14 14 14);
             [lia | apply (stretch_emit 14 14 14); [reflexivity | lia] | intros _].
           apply (stretch_bind 14 14 14); [lia | quiet_step | intros _].
           apply (stretch_emit 14 14 14); [reflexivity | lia].
Qed.

Lemma Run_serve_in_order (env : Env) : stretch 12 14 (Run_serve env).
Proof.
  unfold Run_serve.
  apply (stretch_bind 12 12 14); [lia | quiet_step | intros c].
  apply (stretch_bind 12 13 14); [lia | | intros _].
  - destruct (c_ProxyServer c); [| quiet_step].
    apply (stretch_bind 12 13 13);
      [lia | apply (stretch_emit 12 13 13); [reflexivity | lia]
      | intros _; apply stretch_log].
  - destruct (Z.of_nat (length (Exec (c_Config c))) >? 0)%Z; [| quiet_step].
    apply stretch_wrapping. unfold execCmds.
    apply (stretch_bind 13 13 14); [lia | quiet_step | intros c'].
    intros s.
    destruct (execCmds_from_in_order env (Z.of_nat (length (Exec (c_Config c'))))
                (Exec (c_Config c')) 0%Z s) as [Ha Hb].
    split; [exact Ha |]. eapply Forall_impl; [| exact Hb]. cbn. intros; lia.
Qed.

Lemma Run_start_in_order (env : Env) : stretch 0 8 (Run_start env).
Proof.
  intros s. start_cases ltac:(fail).
  all: unfold in_order, milestones; cbn.
  all: split; [reflexivity | repeat (constructor; [lia |]); constructor].
Qed.

(** X16.  The steps of [Run] never come out of their order: the HTTP
    server is told to listen before the proxy server is, both before the
    hostname is asked and the consul leaser opened, that before the store
    is opened and published, that before the file system is mounted, that
    before the HTTP server serves, that before the wait for the cluster,
    that before the question who is primary, the handoff request and the
    polls, and all of it before the proxy server serves and a subprocess
    is run. *)
Theorem Run_steps_in_order (env : Env) (s : state) :
  ascending (milestones (trace (Run env s))) = true.
Proof.
  assert (stretch 0 14 (Run env)) as H.
  { unfold Run.
    apply (stretch_bind 0 8 14); [lia | apply Run_start_in_order | intros _].
    apply (stretch_bind 8 12 14); [lia | | intros _; apply Run_serve_in_order].
    intros s'. destruct (Run_sync_in_order env s') as [Ha Hb].
    split; [exact Ha |]. eapply Forall_impl; [| exact Hb]. cbn. intros; lia. }
  exact (proj1 (H s)).
Qed.

(** ** What a [Run] that returned nil leaves *)

Lemma Run_start_wired (env : Env) (s : state) :
  returns_wired (self s) (Run_start env s).
Proof.
  start_cases ltac:(fail).
  all: unfold returns_wired; cbn; intros Hres; try discriminate Hres.
  all: unfold wired; cbn; eexists; repeat split.
  all: bool_facts;
    repeat match goal with
           | H : ?a = _ |- context [?a =? _] => rewrite H
           end;
    try reflexivity.
  all: match goal with
       | H : ?a <> "" |- context [?a =? ""] =>
           apply String.eqb_neq in H; rewrite H; reflexivity
       end.
Qed.

Lemma late_keeps_wired (env : Env) (c0 : MountCommand) :
  keeps (fun _ s => wired c0 (self s)) (Run_sync env ;; Run_serve env).
Proof.
  assert (forall e, late_event e = true ->
                    keeps (fun _ s => wired c0 (self s)) (emit e)) as J_emit.
  { intros e _ t0 s0 H. exact H. }
  apply keeps_bind; [apply keeps_Run_sync; exact J_emit |].
  intros _. apply keeps_Run_serve; [exact J_emit |].
  intros v t0 s0 H. exact H.
Qed.

Lemma Run_wired (env : Env) (s : state) :
  returns_wired (self s) (Run env s).
Proof.
  pose proof (Run_start_wired env s) as Hstart.
  pose proof (late_keeps_wired env (self s)) as Hlate.
  unfold Run. unfold bind at 1. unfold returns_wired in *.
  destruct (Run_start env s) as [[[] | err | msg |] s1 t1]; cbn in *;
    try discriminate.
  specialize (Hlate [] s1 (Hstart eq_refl)).
  destruct ((Run_sync env ;; Run_serve env) s1) as [o s2 t2]. cbn in *.
  intros _. exact Hlate.
Qed.

(** X17.  When [Run] returns nil the command holds what it built from its
    config: a leaser, the file system of the FUSE directory, the HTTP
    server, and the store of the data directory, whose leaser is the
    command's leaser and whose invalidator is the command's file system;
    the proxy server of the config when the config has a proxy target, and
    the proxy server it had before when it has none. *)
Theorem Run_nil_leaves_command_wired (env : Env) (s : state) :
  result (Run env s) = Returned tt ->
  exists l,
    c_Leaser (self (final (Run env s))) = Some l /\
    c_FileSystem (self (final (Run env s)))
    = Some (configured_fs (c_Config (self s))) /\
    c_HTTPServer (self (final (Run env s)))
    = Some {| server_Addr := HTTP_Addr (HTTP (c_Config (self s))) |} /\
    c_Store (self (final (Run env s)))
    = Some (with_Invalidator (configured_fs (c_Config (self s)))
              (with_Leaser (Some l) (configured_store (c_Config (self s))))) /\
    c_ProxyServer (self (final (Run env s)))
    = (if Proxy_Target (Proxy (c_Config (self s))) =? ""
       then c_ProxyServer (self s)
       else Some (configured_proxy (c_Config (self s)))).
Proof.
  intros Hres.
  destruct (Run_wired env s Hres) as (l & H1 & H2 & H3 & H4 & H5 & _).
  exists l. repeat split; assumption.
Qed.

Lemma Run_nil_leaves_command_wired_witness :
  exists l,
    c_Leaser (self (final (Run sample_env (fresh sample_config)))) = Some l.
Proof.
  destruct (Run_nil_leaves_command_wired sample_env (fresh sample_config) eq_refl)
    as (l & Hl & _).
  exists l. exact Hl.
Defined.

(** ** The subprocess the command holds *)

Lemma last_cons_default {A} (x d : A) (l : list A) :
  last (x :: l) d = last l x.
Proof.
  revert x d. induction l as [| y l IH]; intros x d; [reflexivity |].
  change (last (x :: y :: l) d) with (last (y :: l) d).
  rewrite (IH y d), (IH y x). reflexivity.
Qed.

Lemma execCmds_from_cmd (env : Env) (len : Z) (st : Store)
    (configs : list ExecConfig) :
  forall i s,
    c_Store (self s) = Some st ->
    c_cmd (self (final (execCmds_from env len i configs s)))
    = last (map Some (exec_calls (trace (execCmds_from env len i configs s))))
           (c_cmd (self s)) /\
    (forall v, set_cmd v (self (final (execCmds_from env len i configs s)))
               = set_cmd v (self s)) /\
    expvarOnce (final (execCmds_from env len i configs s)) = expvarOnce s.
Proof.
  induction configs as [| config configs IH]; intros i s Hst.
  - repeat split.
  - destruct (shellwords_Parse env (Cmd config)) as [[| name args] | err] eqn:Hparse.
    + rewrite (proj2 (execCmds_from_bad env len i config configs s) Hparse).
      repeat split.
    + destruct (skipped st config) eqn:Hskip.
      * rewrite (execCmds_from_pass env len i config configs s st name args
                   Hst Hskip Hparse).
        unfold prepend. cbn [final trace app exec_calls flat_map].
        exact (IH (i + 1)%Z s Hst).
      * rewrite (execCmds_from_run env len i config configs s name args Hparse
                   (not_skipped_runs st config s Hst Hskip)).
        destruct (IH (i + 1)%Z (with_cmd (name, args) s) Hst) as (H1 & H2 & H3).
        destruct (i <? len - 1)%Z;
          [destruct (cmd_Run env name args) | destruct (cmd_Start env name args)];
          unfold prepend; cbn [final trace app exec_calls flat_map map];
          try (repeat split; fail).
        -- cbn [app]. cbn [map]. rewrite last_cons_default.
           split; [exact H1 |]. split; [| exact H3].
           intros v. rewrite H2. reflexivity.
        -- cbn [app]. cbn [map]. rewrite last_cons_default.
           split; [exact H1 |]. split; [| exact H3].
           intros v. rewrite H2. reflexivity.
    + rewrite (proj1 (execCmds_from_bad env len i config configs s) err Hparse).
      repeat split.
Qed.

(** X18.  On a command whose store is there, [execCmds] assigns nothing
    but the subprocess of the command: after it, however it ended, [Cmd()]
    is the last subprocess it ran or started, also when that one failed,
    or the one the command held before when it ran none. *)
Theorem execCmds_cmd_is_last (env : Env) (s : state) (st : Store) :
  c_Store (self s) = Some st ->
  c_cmd (self (final (execCmds env s)))
  = last (map Some (exec_calls (trace (execCmds env s)))) (c_cmd (self s)) /\
  (forall v, set_cmd v (self (final (execCmds env s))) = set_cmd v (self s)) /\
  expvarOnce (final (execCmds env s)) = expvarOnce s.
Proof.
  intros Hst.
  assert (execCmds env s
          = execCmds_from env (Z.of_nat (length (Exec (c_Config (self s))))) 0
                          (Exec (c_Config (self s))) s) as ->.
  { unfold execCmds. unfold_monad. cbn.
    destruct (execCmds_from env _ 0 (Exec (c_Config (self s))) s). reflexivity. }
  apply (execCmds_from_cmd env _ st). exact Hst.
Qed.

Lemma execCmds_cmd_is_last_witness :
  c_cmd (self (final (execCmds sample_env (final (initStore (fresh sample_config))))))
  = Some ("app", ["-addr"; ":8081"]).
Proof.
  exact (proj1 (execCmds_cmd_is_last sample_env
                  (final (initStore (fresh sample_config))) _ eq_refl)).
Defined.
